(** * StarBarista cafe admin panels: contact-message inbox and bill display

    A shallow embedding of the two admin components of the repository:

    - [ContactMessages] (the inbox panel: load, view, mark read, delete,
      reply), whose handlers are state transformers over the component's
      React state together with the browser objects they touch
      (localStorage, the toast channel, the console, window.open, the clock);
    - [BillDisplay] (the receipt view: the order-id line, the PDF download and
      the share action), whose async actions are traces of host calls with
      exceptions.

    Strings are [string]s of one-byte characters: the identifiers, e-mail
    addresses and texts of the model are ASCII, for which a JavaScript code
    unit and a character of [string] coincide. *)

From Stdlib Require Import ZArith Ascii String.
From stdpp Require Import base tactics option list strings gmap.

Local Open Scope string_scope.
Local Open Scope list_scope.

(** ** Data model *)

(** [type ContactMessage]: the two optional properties are [option]s, [None]
    standing for an absent property. The projections carry the prefix [cm_]
    where the source name is taken in Rocq ([id], [name], [message]) *)
Record ContactMessage : Type := mkContactMessage {
  cm_id : string;
  cm_name : string;
  cm_email : string;
  cm_message : string;
  cm_timestamp : string;
  isRead : bool;
  replied : option bool;
  replyTimestamp : option string
}.

#[global] Instance ContactMessage_eq_dec : EqDecision ContactMessage.
Proof. solve_decision. Defined.

(** The object spread [{ ...msg, isRead: true }]: a copy of [msg] in which
    only [isRead] is overwritten. *)
Definition spread_isRead (msg : ContactMessage) (b : bool) : ContactMessage :=
  {| cm_id := msg.(cm_id);
     cm_name := msg.(cm_name);
     cm_email := msg.(cm_email);
     cm_message := msg.(cm_message);
     cm_timestamp := msg.(cm_timestamp);
     isRead := b;
     replied := msg.(replied);
     replyTimestamp := msg.(replyTimestamp) |}.

(** The object spread [{ ...msg, replied: true, replyTimestamp: ts }]. *)
Definition spread_replied (msg : ContactMessage) (ts : string) : ContactMessage :=
  {| cm_id := msg.(cm_id);
     cm_name := msg.(cm_name);
     cm_email := msg.(cm_email);
     cm_message := msg.(cm_message);
     cm_timestamp := msg.(cm_timestamp);
     isRead := msg.(isRead);
     replied := Some true;
     replyTimestamp := Some ts |}.

(** ** The host environment

    The built-in functions of the browser that the inbox calls and that are no
    code of the repository. [JSON_parse] returns [None] where [JSON.parse]
    throws a [SyntaxError]; the texts it accepts are those of the slot's type,
    a sequence of [ContactMessage]. Times are milliseconds since the epoch. *)
Class Host : Type := {
  JSON_stringify : list ContactMessage → string;
  JSON_parse : string → option (list ContactMessage);
  encodeURIComponent : string → string;
  toISOString : Z → string
}.

(** A notification of the [sonner] toast channel. *)
Inductive Toast : Type :=
  | toast_success (text : string)
  | toast_error (text : string).

#[global] Instance Toast_eq_dec : EqDecision Toast.
Proof. solve_decision. Defined.

Module ContactMessages.

(** The component's state (one field per [useState]) and the browser objects
    its handlers read and write. [windows] lists the calls of [window.open] as
    (url, target); [clock] is the time on the wall clock at this point of the
    run, and [delays] the time the host lets pass before each of the next
    readings of the clock (the wall clock of the model never runs backwards). *)
Record World : Type := mkWorld {
  messages : list ContactMessage;
  selectedMessage : option ContactMessage;
  dialogOpen : bool;
  replyDialogOpen : bool;
  replyText : string;
  isSendingReply : bool;
  loading : bool;
  localStorage : gmap string string;
  toasts : list Toast;
  console : list string;
  windows : list (string * string);
  clock : Z;
  delays : list N
}.

(** Handlers run in a state monad over [World]. *)
Definition M (A : Type) : Type := World → A * World.

#[global] Instance M_ret : MRet M := λ A a w, (a, w).
#[global] Instance M_bind : MBind M := λ A B f m w, let '(a, w') := m w in f a w'.

Definition exec {A} (m : M A) (w : World) : World := (m w).2.

Definition gets {A} (f : World → A) : M A := λ w, (f w, w).
Definition modify (f : World → World) : M unit := λ w, ((), f w).
Definition skip : M unit := mret ().

(** The state setters of [useState]. *)
Definition setMessages (v : list ContactMessage) : M unit :=
  modify (λ w, mkWorld v w.(selectedMessage) w.(dialogOpen) w.(replyDialogOpen)
    w.(replyText) w.(isSendingReply) w.(loading) w.(localStorage) w.(toasts)
    w.(console) w.(windows) w.(clock) w.(delays)).

Definition setSelectedMessage (v : option ContactMessage) : M unit :=
  modify (λ w, mkWorld w.(messages) v w.(dialogOpen) w.(replyDialogOpen)
    w.(replyText) w.(isSendingReply) w.(loading) w.(localStorage) w.(toasts)
    w.(console) w.(windows) w.(clock) w.(delays)).

Definition setDialogOpen (v : bool) : M unit :=
  modify (λ w, mkWorld w.(messages) w.(selectedMessage) v w.(replyDialogOpen)
    w.(replyText) w.(isSendingReply) w.(loading) w.(localStorage) w.(toasts)
    w.(console) w.(windows) w.(clock) w.(delays)).

Definition setReplyDialogOpen (v : bool) : M unit :=
  modify (λ w, mkWorld w.(messages) w.(selectedMessage) w.(dialogOpen) v
    w.(replyText) w.(isSendingReply) w.(loading) w.(localStorage) w.(toasts)
    w.(console) w.(windows) w.(clock) w.(delays)).

Definition setReplyText (v : string) : M unit :=
  modify (λ w, mkWorld w.(messages) w.(selectedMessage) w.(dialogOpen)
    w.(replyDialogOpen) v w.(isSendingReply) w.(loading) w.(localStorage)
    w.(toasts) w.(console) w.(windows) w.(clock) w.(delays)).

Definition setIsSendingReply (v : bool) : M unit :=
  modify (λ w, mkWorld w.(messages) w.(selectedMessage) w.(dialogOpen)
    w.(replyDialogOpen) w.(replyText) v w.(loading) w.(localStorage)
    w.(toasts) w.(console) w.(windows) w.(clock) w.(delays)).

Definition setLoading (v : bool) : M unit :=
  modify (λ w, mkWorld w.(messages) w.(selectedMessage) w.(dialogOpen)
    w.(replyDialogOpen) w.(replyText) w.(isSendingReply) v w.(localStorage)
    w.(toasts) w.(console) w.(windows) w.(clock) w.(delays)).

(** [localStorage.getItem(key)]: [None] is JavaScript's [null]. *)
Definition localStorage_getItem (key : string) : M (option string) :=
  gets (λ w, w.(localStorage) !! key).

(** [localStorage.setItem(key, value)] overwrites the slot. *)
Definition localStorage_setItem (key value : string) : M unit :=
  modify (λ w, mkWorld w.(messages) w.(selectedMessage) w.(dialogOpen)
    w.(replyDialogOpen) w.(replyText) w.(isSendingReply) w.(loading)
    (<[key := value]> w.(localStorage)) w.(toasts) w.(console) w.(windows)
    w.(clock) w.(delays)).

(** [toast.success(text)] and [toast.error(text)]. *)
Definition toast (t : Toast) : M unit :=
  modify (λ w, mkWorld w.(messages) w.(selectedMessage) w.(dialogOpen)
    w.(replyDialogOpen) w.(replyText) w.(isSendingReply) w.(loading)
    w.(localStorage) (w.(toasts) ++ [t]) w.(console) w.(windows) w.(clock)
    w.(delays)).

(** [console.error(text, error)]: the text is recorded. *)
Definition console_error (text : string) : M unit :=
  modify (λ w, mkWorld w.(messages) w.(selectedMessage) w.(dialogOpen)
    w.(replyDialogOpen) w.(replyText) w.(isSendingReply) w.(loading)
    w.(localStorage) w.(toasts) (w.(console) ++ [text]) w.(windows) w.(clock)
    w.(delays)).

(** [window.open(url, target)]. *)
Definition window_open (url target : string) : M unit :=
  modify (λ w, mkWorld w.(messages) w.(selectedMessage) w.(dialogOpen)
    w.(replyDialogOpen) w.(replyText) w.(isSendingReply) w.(loading)
    w.(localStorage) w.(toasts) w.(console) (w.(windows) ++ [(url, target)])
    w.(clock) w.(delays)).

(** The world at a later reading of the clock: nothing else of it changes. *)
Definition with_clock (w : World) (now : Z) (ds : list N) : World :=
  mkWorld w.(messages) w.(selectedMessage) w.(dialogOpen) w.(replyDialogOpen)
    w.(replyText) w.(isSendingReply) w.(loading) w.(localStorage) w.(toasts)
    w.(console) w.(windows) now ds.

(** [new Date()]: the clock is read after the next delay has passed. *)
Definition new_Date : M Z :=
  λ w, let now := (w.(clock) + Z.of_N (hd 0%N w.(delays)))%Z in
       (now, with_clock w now (tl w.(delays))).

(** [value || fallback] on a string that may be [null]: [null] and the empty
    string are the falsy values. *)
Definition or_default (value : option string) (fallback : string) : string :=
  match value with
  | Some s => if decide (s = "") then fallback else s
  | None => fallback
  end.

(** [String.prototype.trim] on ASCII text: the white space and line terminator
    characters are TAB, LF, VT, FF, CR and the space. *)
Definition is_white_space (c : ascii) : bool :=
  let n := nat_of_ascii c in
  ((9 <=? n)%nat && (n <=? 13)%nat) || (n =? 32)%nat.

Fixpoint trimStart (s : string) : string :=
  match s with
  | String c s' => if is_white_space c then trimStart s' else s
  | EmptyString => EmptyString
  end.

Fixpoint trimEnd (s : string) : string :=
  match s with
  | String c s' =>
      match trimEnd s' with
      | EmptyString => if is_white_space c then EmptyString else String c EmptyString
      | r => String c r
      end
  | EmptyString => EmptyString
  end.

Definition trim (s : string) : string := trimEnd (trimStart s).

Section Handlers.
Context `{Host}.

(** [loadMessages]: the [try] block either sets the parsed list or, where
    [JSON.parse] throws, runs the [catch] block; [finally] clears [loading]. *)
Definition loadMessages : M unit :=
  setLoading true;;
  stored ← localStorage_getItem "contactMessages";
  match JSON_parse (or_default stored "[]") with
  | Some storedMessages => setMessages storedMessages
  | None =>
      console_error "Error loading messages:";;
      toast (toast_error "Failed to load contact messages")
  end;;
  setLoading false.

(** [markAsRead]; [messages] is the list of the current render. *)
Definition markAsRead (id : string) : M unit :=
  messages ← gets messages;
  let updatedMessages :=
    (λ msg, if decide (msg.(cm_id) = id) then spread_isRead msg true else msg)
      <$> messages in
  setMessages updatedMessages;;
  localStorage_setItem "contactMessages" (JSON_stringify updatedMessages).

Definition handleViewMessage (message : ContactMessage) : M unit :=
  setSelectedMessage (Some message);;
  setDialogOpen true;;
  if negb message.(isRead) then markAsRead message.(cm_id) else skip.

Definition handleDeleteMessage (id : string) : M unit :=
  messages ← gets messages;
  let updatedMessages := filter (λ msg, msg.(cm_id) ≠ id) messages in
  setMessages updatedMessages;;
  localStorage_setItem "contactMessages" (JSON_stringify updatedMessages);;
  setDialogOpen false;;
  toast (toast_success "Message deleted successfully").

(** The callback of [messages.map] in both reply handlers: the clock is read
    when (and each time) an entry matches. *)
Definition mark_replied (id : string) (msg : ContactMessage) : M ContactMessage :=
  if decide (msg.(cm_id) = id) then
    now ← new_Date;
    mret (spread_replied msg (toISOString now))
  else mret msg.

Definition handleSendReplyViaEmailClient : M unit :=
  selectedMessage ← gets selectedMessage;
  match selectedMessage with
  | None => skip
  | Some selectedMessage =>
      replyText ← gets replyText;
      messages ← gets messages;
      let subject := "Re: Your inquiry at Brista Cafe" in
      let mailtoUrl :=
        "mailto:" +:+ selectedMessage.(cm_email) +:+ "?subject=" +:+
        encodeURIComponent subject +:+ "&body=" +:+ encodeURIComponent replyText in
      window_open mailtoUrl "_blank";;
      updatedMessages ← mapM (mark_replied selectedMessage.(cm_id)) messages;
      setMessages updatedMessages;;
      localStorage_setItem "contactMessages" (JSON_stringify updatedMessages);;
      toast (toast_success "Email client opened with pre-filled reply");;
      setReplyDialogOpen false;;
      setReplyText ""
  end.

(** [handleSendReplyViaSystem] is an async function. Up to its [await] it runs
    in the click: the guard, then [setIsSendingReply(true)]. It returns the
    values its closure holds ([selectedMessage] and [messages] of the render of
    the click), with which it resumes once the timer has fired; the guard's
    early return gives [None]. *)
Definition handleSendReplyViaSystem_click : M (option (ContactMessage * list ContactMessage)) :=
  selectedMessage ← gets selectedMessage;
  replyText ← gets replyText;
  messages ← gets messages;
  match selectedMessage with
  | Some selectedMessage =>
      if decide (trim replyText = "") then mret None
      else setIsSendingReply true;; mret (Some (selectedMessage, messages))
  | None => mret None
  end.

(** The rest of [handleSendReplyViaSystem], after the 1500 ms timer: the
    promise of the timer never rejects, so the [try] block runs to its end and
    [finally] clears the flag. *)
Definition handleSendReplyViaSystem_resume
    (closure : ContactMessage * list ContactMessage) : M unit :=
  let '(selectedMessage, messages) := closure in
  updatedMessages ← mapM (mark_replied selectedMessage.(cm_id)) messages;
  setMessages updatedMessages;;
  localStorage_setItem "contactMessages" (JSON_stringify updatedMessages);;
  toast (toast_success "Reply sent successfully");;
  setReplyDialogOpen false;;
  setReplyText "";;
  setIsSendingReply false.

(** The two delete buttons: the one of a table row, and the one of the detail
    dialog's footer, [handleDeleteMessage(selectedMessage?.id || '')]. *)
Definition rowDelete_onClick (message : ContactMessage) : M unit :=
  setSelectedMessage (Some message);;
  handleDeleteMessage message.(cm_id).

Definition footerDelete_onClick : M unit :=
  selectedMessage ← gets selectedMessage;
  handleDeleteMessage (or_default (cm_id <$> selectedMessage) "").

(** The component as mounted: the initial values of [useState], then the
    effect that runs [loadMessages]. *)
Definition initial (storage : gmap string string) (now : Z) (ds : list N) : World :=
  mkWorld [] None false false "" false true storage [] [] [] now ds.

Definition mount (storage : gmap string string) (now : Z) (ds : list N) : World :=
  exec loadMessages (initial storage now ds).

End Handlers.

(** *** Rendering *)

(** [const unreadCount = messages.filter(msg => !msg.isRead).length], computed
    in the body of the component, that is at every render. *)
Definition unreadCount (w : World) : nat :=
  length (filter (λ msg, ¬ msg.(isRead)) w.(messages)).

(** The badge: [{unreadCount > 0 && <Badge>{unreadCount} new</Badge>}];
    [None] when no badge is rendered. *)
Definition unreadBadge (w : World) : option nat :=
  if decide (0 < unreadCount w)%nat then Some (unreadCount w) else None.

(** The number of entries with [isRead = false], by recursion on the list as
    the specification words it. *)
Fixpoint count_unread (l : list ContactMessage) : nat :=
  match l with
  | [] => 0
  | msg :: l' => if msg.(isRead) then count_unread l' else S (count_unread l')
  end.

(** *** The reply editor *)

(** The line feed of the template literal. *)
Definition line_feed : string := String (ascii_of_nat 10) EmptyString.

(** The template [handleReplyClick] fills the draft with. *)
Definition replyTemplate (name : string) : string :=
  "Dear " +:+ name +:+ "," +:+ line_feed +:+ line_feed +:+
  "Thank you for contacting Brista Cafe. In response to your inquiry:" +:+
  line_feed +:+ line_feed +:+ "[Your response here]" +:+ line_feed +:+ line_feed +:+
  "Best regards," +:+ line_feed +:+ "Brista Cafe Team".

Definition handleReplyClick : M unit :=
  setDialogOpen false;;
  setReplyDialogOpen true;;
  selectedMessage ← gets selectedMessage;
  match selectedMessage with
  | Some selectedMessage => setReplyText (replyTemplate selectedMessage.(cm_name))
  | None => skip
  end.

(** The [disabled] props of the two send buttons of the reply dialog:
    [disabled={isSendingReply}] and
    [disabled={isSendingReply || !replyText.trim()}]. *)
Definition emailClientButton_disabled (w : World) : bool :=
  w.(isSendingReply).

Definition sendReplyButton_disabled (w : World) : bool :=
  w.(isSendingReply) || bool_decide (trim w.(replyText) = "").

(** *** The table *)

(** What a table row shows of its message: the key and the class of the row,
    the text of the status badge, whether the Replied badge is rendered
    ([message.replied &&]), and the name, e-mail and date cells. *)
Record Row : Type := mkRow {
  row_key : string;
  row_className : string;
  row_status : string;
  row_replied : bool;
  row_name : string;
  row_email : string;
  row_date : string
}.

(** What the card shows below its header: the spinner while loading, the
    notice of the empty list, or the table. *)
Inductive Content : Type :=
  | content_spinner
  | content_empty
  | content_table (rows : list Row).

Section Render.
(** [formatDate] formats through the locale of the host. *)
Variable formatDate : string → string.

Definition renderRow (message : ContactMessage) : Row :=
  {| row_key := message.(cm_id);
     row_className := if message.(isRead) then "" else "bg-amber-50";
     row_status := if message.(isRead) then "Read" else "New";
     row_replied := bool_decide (message.(replied) = Some true);
     row_name := message.(cm_name);
     row_email := message.(cm_email);
     row_date := formatDate message.(cm_timestamp) |}.

Definition renderContent (w : World) : Content :=
  if w.(loading) then content_spinner
  else if decide (length w.(messages) = 0%nat) then content_empty
  else content_table (renderRow <$> w.(messages)).

End Render.

(** *** Vocabulary of the properties *)

(** The slot holds the serialized list of the panel. *)
Definition in_sync `{Host} (w : World) : Prop :=
  w.(localStorage) !! "contactMessages" = Some (JSON_stringify w.(messages)).

(** Position by position, an entry of [l] that is marked replied is still
    there in [l'], with its identifier, and still marked replied. *)
Definition keeps_replied (l l' : list ContactMessage) : Prop :=
  ∀ i msg, l !! i = Some msg → msg.(replied) = Some true →
    ∃ msg', l' !! i = Some msg' ∧ msg'.(cm_id) = msg.(cm_id) ∧
      msg'.(replied) = Some true.

End ContactMessages.

(** ** The bill display *)

Module BillDisplay.

(** Modelled from the spec: the line item of an order, whose declaration
    ([OrderType], imported from the admin dashboard page) is not among the
    sources: name, quantity, unit price and optional size. *)
Record OrderItem : Type := mkOrderItem {
  item_name : string;
  quantity : Z;
  price : Z;
  size : option string
}.

(** Modelled from the spec: the order record the panel receives, with the
    properties the component reads. The panel never writes to it. *)
Record OrderType : Type := mkOrder {
  order_id : string;
  customer_name : option string;
  room_number : option string;
  payment_method : string;
  items : list OrderItem;
  subtotal : Z;
  taxes : Z;
  total : Z;
  status : string;
  created_at : string
}.

(** *** String operations of the host *)

(** [String.prototype.slice(start, end)]: a negative index counts from the
    end, and both are clamped to the string. *)
Definition relative_index (len i : Z) : Z :=
  if (i <? 0)%Z then Z.max (len + i) 0 else Z.min i len.

Definition slice (s : string) (start end_ : Z) : string :=
  let len := Z.of_nat (String.length s) in
  let from := relative_index len start in
  let to := relative_index len end_ in
  substring (Z.to_nat from) (Z.to_nat (Z.max (to - from) 0)) s.

(** [String.prototype.toUpperCase] on ASCII text: the letters a to z are
    mapped to A to Z, every other character is kept. *)
Definition upper_char (c : ascii) : ascii :=
  let n := nat_of_ascii c in
  if ((97 <=? n)%nat && (n <=? 122)%nat) then ascii_of_nat (n - 32) else c.

Fixpoint toUpperCase (s : string) : string :=
  match s with
  | String c s' => String (upper_char c) (toUpperCase s')
  | EmptyString => EmptyString
  end.

(** The texts on which the string operations above are those of the host:
    every character is ASCII, so that a character is one code unit, and
    upper-casing maps a letter to a letter and keeps the length. *)
Fixpoint is_ascii (s : string) : bool :=
  match s with
  | String c s' => (nat_of_ascii c <? 128)%nat && is_ascii s'
  | EmptyString => true
  end.

(** *** Rendering and file names *)

(** The order-id line of the receipt: [order.id.slice(0, 8).toUpperCase()]. *)
Definition orderIdLine (order : OrderType) : string :=
  toUpperCase (slice order.(order_id) 0 8).

(** The argument of [pdf.save]. *)
Definition pdfFileName (order : OrderType) : string :=
  "cafe-bill-" +:+ order.(order_id) +:+ ".pdf".

(** The share payload: its title and the name of its one file. *)
Definition shareTitle (order : OrderType) : string :=
  "Cafe Bill - Order #" +:+ order.(order_id).

Definition shareFileName (order : OrderType) : string :=
  "bill-" +:+ order.(order_id) +:+ ".png".

(** *** The platform and the effects of the export actions *)

(** What the host does when the actions call it. [billRef_current] says
    whether the ref holds the rendered node; [html2canvas] is [None] when the
    capture rejects and else the image data of the canvas; [toBlob] is [false]
    when the canvas hands [null] to the callback; [navigator_share] is [None]
    on a platform with no [share] in [navigator], and else says whether the
    promise of [navigator.share] resolves. The jsPDF calls do not throw. *)
Record Platform : Type := mkPlatform {
  billRef_current : bool;
  html2canvas : option string;
  toBlob : bool;
  navigator_share : option bool
}.

(** The observable calls, in the order they are made. *)
Inductive Event : Type :=
  | ev_setIsGeneratingBill (b : bool)
  | ev_html2canvas
  | ev_toDataURL
  | ev_toBlob
  | ev_pdf_addImage (imgData : string)
  | ev_pdf_save (fileName : string)
  | ev_navigator_share (title fileName : string)
  | ev_console_error (text : string)
  | ev_toast (t : Toast).

#[global] Instance Event_eq_dec : EqDecision Event.
Proof. solve_decision. Defined.

(** An action yields the trace of its calls and its result, [None] when an
    exception (or a rejected promise) leaves it. *)
Definition Eff (A : Type) : Type := list Event * option A.

#[global] Instance Eff_ret : MRet Eff := λ A a, ([], Some a).
#[global] Instance Eff_bind : MBind Eff := λ A B f m,
  match m with
  | (t, Some a) => let '(t', r) := f a in ((t ++ t')%list, r)
  | (t, None) => (t, None)
  end.

Definition emit (e : Event) : Eff unit := ([e], Some ()).
Definition throw {A} : Eff A := ([], None).
Definition trace {A} (m : Eff A) : list Event := m.1.

(** [try { body } catch (error) { handler }]. *)
Definition try_catch {A} (body handler : Eff A) : Eff A :=
  match body with
  | (t, None) => let '(t', r) := handler in ((t ++ t')%list, r)
  | (t, Some a) => (t, Some a)
  end.

(** [try { body } finally { cleanup }]. *)
Definition try_finally {A} (body : Eff A) (cleanup : Eff unit) : Eff A :=
  let '(t, r) := body in
  let '(t', r') := cleanup in
  ((t ++ t')%list, match r' with Some _ => r | None => None end).

Section Actions.
Variable p : Platform.
Variable order : OrderType.

(** [await html2canvas(billRef.current)]. *)
Definition call_html2canvas : Eff string :=
  emit ev_html2canvas;;
  match p.(html2canvas) with Some canvas => mret canvas | None => throw end.

(** The promise around [canvas.toBlob]: rejected when the blob is [null]. *)
Definition call_toBlob (canvas : string) : Eff string :=
  emit ev_toBlob;;
  if p.(toBlob) then mret canvas else throw.

Definition downloadPDF : Eff unit :=
  if negb p.(billRef_current) then mret ()
  else
    emit (ev_setIsGeneratingBill true);;
    try_finally
      (try_catch
         (canvas ← call_html2canvas;
          emit ev_toDataURL;;
          let imgData := canvas in
          emit (ev_pdf_addImage imgData);;
          emit (ev_pdf_save (pdfFileName order));;
          emit (ev_toast (toast_success "Bill downloaded as PDF")))
         (emit (ev_console_error "Error generating PDF:");;
          emit (ev_toast (toast_error "Failed to download PDF"))))
      (emit (ev_setIsGeneratingBill false)).

Definition shareBill : Eff unit :=
  if negb p.(billRef_current) then mret ()
  else
    try_catch
      (canvas ← call_html2canvas;
       imgBlob ← call_toBlob canvas;
       match p.(navigator_share) with
       | Some resolves =>
           emit (ev_navigator_share (shareTitle order) (shareFileName order));;
           if resolves then mret () else throw
       | None =>
           emit (ev_toast (toast_error "Sharing not supported on this browser"))
       end)
      (emit (ev_console_error "Error sharing bill:");;
       emit (ev_toast (toast_error "Failed to share bill"))).

(** The Share button: [disabled={isGeneratingBill || !('share' in navigator)}];
    a click on a disabled button runs no handler. *)
Definition shareButton_disabled (isGeneratingBill : bool) : bool :=
  isGeneratingBill || negb (bool_decide (is_Some p.(navigator_share))).

Definition shareButton_onClick (isGeneratingBill : bool) : Eff unit :=
  if shareButton_disabled isGeneratingBill then mret () else shareBill.

End Actions.

(** *** The header lines of the receipt *)

(** [order.customer_name || "Walk-in Customer"] and
    [order.room_number || "Counter Pickup"]. *)
Definition customerLine (order : OrderType) : string :=
  ContactMessages.or_default order.(customer_name) "Walk-in Customer".

Definition roomLine (order : OrderType) : string :=
  ContactMessages.or_default order.(room_number) "Counter Pickup".

(** [String.prototype.charAt]: the empty string past the end. *)
Definition charAt (s : string) (i : nat) : string :=
  match String.get i s with
  | Some c => String c EmptyString
  | None => EmptyString
  end.

(** The status line:
    [order.status.charAt(0).toUpperCase() + order.status.slice(1)], where the
    missing second argument of [slice] is the length of the string. *)
Definition statusLabel (order : OrderType) : string :=
  toUpperCase (charAt order.(status) 0) +:+
  slice order.(status) 1 (Z.of_nat (String.length order.(status))).

Definition statusClassName (order : OrderType) : string :=
  if decide (order.(status) = "completed") then "text-green-500 font-medium"
  else "text-amber-500 font-medium".

(** *** Printing *)

(** The calls of [printBill], in the order they are made. *)
Inductive PrintEvent : Type :=
  | pe_window_open (url target : string)
  | pe_document_write (html : string)
  | pe_document_close
  | pe_print
  | pe_toast (t : Toast).

#[global] Instance PrintEvent_eq_dec : EqDecision PrintEvent.
Proof. solve_decision. Defined.

(** [printBill]: [innerHTML] is the markup of the rendered bill, and [popup]
    says whether [window.open] returned a window ([null] when blocked). *)
Definition printBill (p : Platform) (innerHTML : string) (popup : bool) : list PrintEvent :=
  if negb p.(billRef_current) then []
  else
    pe_window_open "" "_blank" ::
    if popup then
      [pe_document_write "<html><head><title>Cafe Bill</title>";
       pe_document_write "<style>body { font-family: Arial, sans-serif; }</style>";
       pe_document_write "</head><body>";
       pe_document_write innerHTML;
       pe_document_write "</body></html>";
       pe_document_close;
       pe_print]
    else [pe_toast (toast_error "Unable to open print window")].

(** The Print and Download buttons: [disabled={isGeneratingBill}]. *)
Definition printButton_onClick (p : Platform) (innerHTML : string) (popup : bool)
    (isGeneratingBill : bool) : list PrintEvent :=
  if isGeneratingBill then [] else printBill p innerHTML popup.

Definition downloadButton_onClick (p : Platform) (order : OrderType)
    (isGeneratingBill : bool) : Eff unit :=
  if isGeneratingBill then mret () else downloadPDF p order.

(** The notifications of a trace, in order. *)
Fixpoint toasts_of (events : list Event) : list Toast :=
  match events with
  | ev_toast t :: rest => t :: toasts_of rest
  | _ :: rest => toasts_of rest
  | [] => []
  end.

(** The text an opened print window has received when it is printed. *)
Fixpoint written (events : list PrintEvent) : string :=
  match events with
  | pe_document_write html :: rest => html +:+ written rest
  | _ :: rest => written rest
  | [] => EmptyString
  end.

End BillDisplay.

(** ** A host and sample data for evaluating the model *)

Module Demo.
Import ContactMessages.

(** [encodeURIComponent] on ASCII text: letters, digits and the marks
    [- _ . ! ~ * ' ( )] are kept, every other character becomes [%XX]. *)
Definition is_unreserved (c : ascii) : bool :=
  let n := nat_of_ascii c in
  ((65 <=? n) && (n <=? 90) || (97 <=? n) && (n <=? 122) || (48 <=? n) && (n <=? 57)
   || bool_decide (n ∈ [45; 95; 46; 33; 126; 42; 39; 40; 41]))%nat.

Definition hex_digit (n : nat) : ascii :=
  ascii_of_nat (if (n <? 10)%nat then 48 + n else 55 + n).

Fixpoint percent_encode (s : string) : string :=
  match s with
  | String c s' =>
      if is_unreserved c then String c (percent_encode s')
      else
        let n := nat_of_ascii c in
        String "%" (String (hex_digit (n / 16)) (String (hex_digit (n mod 16))
          (percent_encode s')))
  | EmptyString => EmptyString
  end.

(** Decimal digits of [n], padded with zeros to [width] characters. *)
Fixpoint padded (width : nat) (n : Z) : string :=
  match width with
  | O => EmptyString
  | S width' =>
      padded width' (n / 10) +:+
      String (ascii_of_nat (48 + Z.to_nat (n mod 10))) EmptyString
  end.

(** [Date.prototype.toISOString] for the years 0000 to 9999: the civil date of
    the day number (days since 1970-01-01), then the time of day. *)
Definition iso_string (ms : Z) : string :=
  let days := (ms / 86400000)%Z in
  let rest := (ms mod 86400000)%Z in
  let z := (days + 719468)%Z in
  let era := (z / 146097)%Z in
  let doe := (z mod 146097)%Z in
  let yoe := ((doe - doe / 1460 + doe / 36524 - doe / 146096) / 365)%Z in
  let doy := (doe - (365 * yoe + yoe / 4 - yoe / 100))%Z in
  let mp := ((5 * doy + 2) / 153)%Z in
  let d := (doy - (153 * mp + 2) / 5 + 1)%Z in
  let m := (if (mp <? 10)%Z then mp + 3 else mp - 9)%Z in
  let y := (yoe + era * 400 + (if (m <=? 2)%Z then 1 else 0))%Z in
  padded 4 y +:+ "-" +:+ padded 2 m +:+ "-" +:+ padded 2 d +:+ "T" +:+
  padded 2 (rest / 3600000) +:+ ":" +:+ padded 2 (rest / 60000 mod 60) +:+ ":" +:+
  padded 2 (rest / 1000 mod 60) +:+ "." +:+ padded 3 (rest mod 1000) +:+ "Z".

(** A stand-in for the two JSON functions, enough to run the handlers on the
    sample data: the serializer writes the identifiers of the entries between
    brackets, and the parser reads the text of the empty array and fails on
    every other text. Of [JSON.parse] it has what the examples use: the text
    of the empty array parses to the empty list, and an opening brace alone is
    a syntax error. *)
Definition write_ids (l : list ContactMessage) : string :=
  "[" +:+ String.concat "," (cm_id <$> l) +:+ "]".

Definition read_empty (text : string) : option (list ContactMessage) :=
  if decide (text = "[]") then Some [] else None.

Definition host : Host :=
  {| JSON_stringify := write_ids;
     JSON_parse := read_empty;
     encodeURIComponent := percent_encode;
     toISOString := iso_string |}.

(** A second stand-in for the two JSON functions, which writes and reads the
    JSON text of a list of messages: an array of objects whose members are
    the fields in the order of the type, an absent optional field left out,
    and in a string the quote and the backslash escaped (every other
    character is written as it is). The reader accepts the texts of this
    shape, without white space, and fails on every other text. *)
Definition quote : ascii := ascii_of_nat 34.
Definition backslash : ascii := ascii_of_nat 92.

Fixpoint write_chars (s : string) : string :=
  match s with
  | String c s' =>
      if decide (c = quote ∨ c = backslash)
      then String backslash (String c (write_chars s'))
      else String c (write_chars s')
  | EmptyString => EmptyString
  end.

Definition write_string (s : string) : string :=
  String quote (write_chars s +:+ String quote EmptyString).

Definition write_bool (b : bool) : string := if b then "true" else "false".

Definition key (name : string) : string := write_string name +:+ ":".

Definition write_message (msg : ContactMessage) : string :=
  "{" +:+ key "id" +:+ write_string msg.(cm_id) +:+
  "," +:+ key "name" +:+ write_string msg.(cm_name) +:+
  "," +:+ key "email" +:+ write_string msg.(cm_email) +:+
  "," +:+ key "message" +:+ write_string msg.(cm_message) +:+
  "," +:+ key "timestamp" +:+ write_string msg.(cm_timestamp) +:+
  "," +:+ key "isRead" +:+ write_bool msg.(isRead) +:+
  match msg.(replied) with
  | Some b => "," +:+ key "replied" +:+ write_bool b
  | None => ""
  end +:+
  match msg.(replyTimestamp) with
  | Some ts => "," +:+ key "replyTimestamp" +:+ write_string ts
  | None => ""
  end +:+ "}".

Definition write_messages (l : list ContactMessage) : string :=
  "[" +:+ String.concat "," (write_message <$> l) +:+ "]".

(** The readers give what they read and the rest of the text. *)
Fixpoint expect (literal s : string) : option string :=
  match literal, s with
  | EmptyString, _ => Some s
  | String a literal', String b s' =>
      if decide (a = b) then expect literal' s' else None
  | String _ _, EmptyString => None
  end.

Fixpoint read_chars (s : string) : option (string * string) :=
  match s with
  | String c s' =>
      if decide (c = quote) then Some (EmptyString, s')
      else if decide (c = backslash) then
        match s' with
        | String escaped s'' =>
            '(text, rest) ← read_chars s''; Some (String escaped text, rest)
        | EmptyString => None
        end
      else '(text, rest) ← read_chars s'; Some (String c text, rest)
  | EmptyString => None
  end.

Definition read_string (s : string) : option (string * string) :=
  s' ← expect (String quote EmptyString) s; read_chars s'.

Definition read_bool (s : string) : option (bool * string) :=
  match expect "true" s with
  | Some rest => Some (true, rest)
  | None => rest ← expect "false" s; Some (false, rest)
  end.

Definition read_optional {A} (name : string)
    (read : string → option (A * string)) (s : string) : option (option A * string) :=
  match expect ("," +:+ key name) s with
  | Some s' => '(v, rest) ← read s'; Some (Some v, rest)
  | None => Some (None, s)
  end.

Definition read_message (s : string) : option (ContactMessage * string) :=
  s ← expect ("{" +:+ key "id") s; '(id, s) ← read_string s;
  s ← expect ("," +:+ key "name") s; '(name, s) ← read_string s;
  s ← expect ("," +:+ key "email") s; '(email, s) ← read_string s;
  s ← expect ("," +:+ key "message") s; '(message, s) ← read_string s;
  s ← expect ("," +:+ key "timestamp") s; '(timestamp, s) ← read_string s;
  s ← expect ("," +:+ key "isRead") s; '(read, s) ← read_bool s;
  '(replied, s) ← read_optional "replied" read_bool s;
  '(replyTimestamp, s) ← read_optional "replyTimestamp" read_string s;
  s ← expect "}" s;
  Some (mkContactMessage id name email message timestamp read replied
          replyTimestamp, s).

(** The objects of a non-empty array, after its opening bracket; [fuel]
    bounds their number. *)
Fixpoint read_items (fuel : nat) (s : string) : option (list ContactMessage) :=
  match fuel with
  | O => None
  | S fuel' =>
      '(msg, rest) ← read_message s;
      match rest with
      | String c rest' =>
          if decide (c = ","%char) then l ← read_items fuel' rest'; Some (msg :: l)
          else if decide (c = "]"%char) then
            (if decide (rest' = "") then Some [msg] else None)
          else None
      | EmptyString => None
      end
  end.

Definition read_messages (text : string) : option (list ContactMessage) :=
  if decide (text = "[]") then Some []
  else s ← expect "[" text; read_items (String.length text) s.

Definition json_host : Host :=
  {| JSON_stringify := write_messages;
     JSON_parse := read_messages;
     encodeURIComponent := percent_encode;
     toISOString := iso_string |}.

Definition ann : ContactMessage :=
  {| cm_id := "1"; cm_name := "Ann"; cm_email := "ann@example.com";
     cm_message := "Do you cater for events?";
     cm_timestamp := "2024-05-01T09:30:00.000Z";
     isRead := false; replied := None; replyTimestamp := None |}.

Definition bob : ContactMessage :=
  {| cm_id := "2"; cm_name := "Bob"; cm_email := "bob@example.com";
     cm_message := "Thanks for the coffee";
     cm_timestamp := "2024-05-02T11:00:00.000Z";
     isRead := true; replied := Some true;
     replyTimestamp := Some "2024-05-02T12:00:00.000Z" |}.

(** The inbox showing [ann] and [bob], the stored text being the serialized
    list, at 2023-11-14T22:13:20.000Z. *)
Definition inbox : World :=
  mkWorld [ann; bob] None false false "" false false
    {[ "contactMessages" := write_ids [ann; bob] ]} [] [] [] 1700000000000 [5%N].

(** The same inbox with [ann] selected and a draft in the reply editor. *)
Definition replying : World :=
  mkWorld [ann; bob] (Some ann) false true "Hello Ann" false false
    {[ "contactMessages" := write_ids [ann; bob] ]} [] [] [] 1700000000000 [5%N].

(** The inbox after another writer has left a text in the slot that is no
    JSON value. *)
Definition corrupted : World :=
  mkWorld [ann; bob] None false false "" false false
    {[ "contactMessages" := "{" ]} [] [] [] 1700000000000 [].

(** The inbox of [ann] and [bob] on the host of [json_host], the slot holding
    the JSON text of the list. *)
Definition json_inbox : World :=
  mkWorld [ann; bob] None false false "" false false
    {[ "contactMessages" := write_messages [ann; bob] ]} [] [] [] 1700000000000 [].

(** The inbox with the detail dialog open on [ann]. *)
Definition viewing : World :=
  mkWorld [ann; bob] (Some ann) true false "" false false
    {[ "contactMessages" := write_ids [ann; bob] ]} [] [] [] 1700000000000 [5%N].

(** The inbox after the slot has been removed from storage. *)
Definition cleared : World :=
  mkWorld [ann; bob] None false false "" false false ∅ [] [] [] 1700000000000 [].

Definition order : BillDisplay.OrderType :=
  BillDisplay.mkOrder "a1b2c3d4-e5f6-7890" None None "cash"
    [BillDisplay.mkOrderItem "Latte" 2 150 None] 300 30 330 "completed"
    "2024-05-01T09:30:00.000Z".

(** An order whose identifier agrees with that of [order] on the first eight
    characters, letter case aside. *)
Definition order_shouting : BillDisplay.OrderType :=
  BillDisplay.mkOrder "A1B2C3D4-FFFF" (Some "Ann") (Some "") "upi"
    [] 0 0 0 "pending" "2024-05-03T08:00:00.000Z".

(** A platform with the bill rendered, a working capture and a share sheet
    that the user completes. *)
Definition sharing : BillDisplay.Platform :=
  BillDisplay.mkPlatform true (Some "data:image/png;base64,AAAA") true (Some true).

(** A platform with the bill rendered, a working capture and no [share] in
    [navigator]. *)
Definition no_share : BillDisplay.Platform :=
  BillDisplay.mkPlatform true (Some "data:image/png;base64,AAAA") true None.

End Demo.

(** ** Properties of the inbox panel *)

Section InboxProperties.
Import ContactMessages.
Context `{Host}.

(** Unfolds the monadic plumbing of a handler applied to a world. *)
Ltac run :=
  cbv [exec mbind M_bind mret M_ret gets modify skip setMessages
       setSelectedMessage setDialogOpen setReplyDialogOpen setReplyText
       setIsSendingReply setLoading localStorage_getItem localStorage_setItem
       toast console_error window_open new_Date with_clock fst snd];
  cbn [messages selectedMessage dialogOpen replyDialogOpen replyText
       isSendingReply loading localStorage toasts console windows clock delays].

Lemma filter_unread_length (l : list ContactMessage) :
  length (filter (λ msg, ¬ msg.(isRead)) l) = count_unread l.
Proof.
  induction l as [|msg l IH]; [done|].
  rewrite filter_cons. cbn [count_unread].
  destruct (isRead msg); case_decide; naive_solver.
Qed.

Lemma spread_replied_isRead (msg : ContactMessage) (ts : string) :
  isRead (spread_replied msg ts) = isRead msg.
Proof. done. Qed.

Lemma mapM_cons_run {A B} (f : A → M B) (x : A) (l : list A) (w : World) :
  mapM f (x :: l) w =
  let '(y, w1) := f x w in let '(k, w2) := mapM f l w1 in (y :: k, w2).
Proof. done. Qed.

Lemma mark_replied_run (id : string) (msg : ContactMessage) (w : World) :
  mark_replied id msg w =
  if decide (msg.(cm_id) = id)
  then let now := (w.(clock) + Z.of_N (hd 0%N w.(delays)))%Z in
       (spread_replied msg (toISOString now), with_clock w now (tl w.(delays)))
  else (msg, w).
Proof. unfold mark_replied. by case_decide. Qed.

(** What [messages.map] with the reply callback yields: only the clock of the
    world moves, it does not move back, and each matching entry is replaced by
    its spread with a timestamp read in between. *)
Lemma mapM_mark_replied (id : string) (msgs : list ContactMessage) (w : World) :
  ∃ now ds,
    (mapM (mark_replied id) msgs w).2 = with_clock w now ds ∧
    (w.(clock) ≤ now)%Z ∧
    Forall2 (λ msg msg',
        if decide (msg.(cm_id) = id)
        then ∃ t, (w.(clock) ≤ t ≤ now)%Z ∧ msg' = spread_replied msg (toISOString t)
        else msg' = msg)
      msgs (mapM (mark_replied id) msgs w).1.
Proof.
  revert w. induction msgs as [|msg msgs IH]; intros w.
  - exists w.(clock), w.(delays). by destruct w.
  - rewrite mapM_cons_run, mark_replied_run.
    destruct (decide (cm_id msg = id)) as [Hid|Hid]; cbv zeta.
    + set (now1 := (clock w + Z.of_N (hd 0%N (delays w)))%Z).
      assert (clock w ≤ now1)%Z by (unfold now1; lia).
      destruct (IH (with_clock w now1 (tl (delays w)))) as (now & ds & Hw & Hle & Hall).
      destruct (mapM (mark_replied id) msgs _) as [k w2]; simpl in *.
      exists now, ds. split_and!; [by subst w2 | lia |].
      constructor.
      * rewrite decide_True by done. exists now1. split; [lia | done].
      * eapply Forall2_impl; [exact Hall|]. intros m m' Hm. simpl in Hm.
        case_decide; [|done]. destruct Hm as (t & ? & ->). exists t. split; [lia | done].
    + destruct (IH w) as (now & ds & Hw & Hle & Hall).
      destruct (mapM (mark_replied id) msgs w) as [k w2]; simpl in *.
      exists now, ds. split_and!; [done..|].
      constructor; [by rewrite decide_False | done].
Qed.

Lemma count_unread_Forall2 (l l' : list ContactMessage) :
  Forall2 (λ msg msg', isRead msg' = isRead msg) l l' →
  count_unread l' = count_unread l.
Proof.
  induction 1 as [|msg msg' l l' Hm _ IH]; [done|].
  cbn [count_unread]. by rewrite IH, Hm.
Qed.

Lemma mapM_mark_replied_count_unread (id : string) (msgs : list ContactMessage)
    (w : World) :
  count_unread (mapM (mark_replied id) msgs w).1 = count_unread msgs.
Proof.
  destruct (mapM_mark_replied id msgs w) as (now & ds & _ & _ & Hall).
  apply count_unread_Forall2. eapply Forall2_impl; [exact Hall|].
  intros msg msg' Hm. simpl in Hm.
  case_decide; [destruct Hm as (t & _ & ->) | subst msg']; done.
Qed.

Lemma count_unread_filter (id : string) (l : list ContactMessage) :
  count_unread ((λ msg, if decide (msg.(cm_id) = id) then spread_isRead msg true else msg) <$> l)
  = count_unread (filter (λ msg, msg.(cm_id) ≠ id) l).
Proof.
  induction l as [|msg l IH]; [done|].
  rewrite fmap_cons, filter_cons. cbn [count_unread].
  destruct (decide (cm_id msg = id)) as [Hid|Hid].
  - rewrite decide_False by naive_solver. done.
  - rewrite decide_True by done. cbn [count_unread]. by rewrite IH.
Qed.

(** The world the external-mail-client reply leaves, field by field. *)
Lemma handleSendReplyViaEmailClient_world (sel : ContactMessage) (w : World) :
  w.(selectedMessage) = Some sel →
  ∃ now ds updated,
    exec handleSendReplyViaEmailClient w =
      mkWorld updated (Some sel) w.(dialogOpen) false "" w.(isSendingReply)
        w.(loading)
        (<["contactMessages" := JSON_stringify updated]> w.(localStorage))
        (w.(toasts) ++ [toast_success "Email client opened with pre-filled reply"])
        w.(console)
        (w.(windows) ++
           [("mailto:" +:+ sel.(cm_email) +:+ "?subject=" +:+
             encodeURIComponent "Re: Your inquiry at Brista Cafe" +:+ "&body=" +:+
             encodeURIComponent w.(replyText), "_blank")])
        now ds ∧
    (w.(clock) ≤ now)%Z ∧
    Forall2 (λ msg msg',
        if decide (msg.(cm_id) = sel.(cm_id))
        then ∃ t, (w.(clock) ≤ t ≤ now)%Z ∧ msg' = spread_replied msg (toISOString t)
        else msg' = msg)
      w.(messages) updated.
Proof.
  intros Hsel. unfold handleSendReplyViaEmailClient. run. rewrite Hsel. run.
  match goal with |- context [mapM _ _ ?w1] => set (w1' := w1) end.
  destruct (mapM_mark_replied sel.(cm_id) w.(messages) w1') as (now & ds & Hw & Hle & Hall).
  destruct (mapM (mark_replied (cm_id sel)) (messages w) w1') as [updated w2].
  simpl in Hw, Hall. subst w2 w1'. exists now, ds, updated.
  split_and!; [|done..]. run. by rewrite Hsel.
Qed.

(** C1: the unread count the panel computes at a render is the number of
    messages whose read flag is false; the badge shows that number and is
    absent exactly when it is zero; the count is a function of the list alone
    (the state holds no count of its own), so after mark read, delete and
    either reply it is the count of the list the mutation has left: the
    unread entries with another identifier after mark read and after delete,
    and as many as before after a reply. *)
Theorem unreadCount_counts_unread (w : World) :
  unreadCount w = count_unread w.(messages) ∧
  unreadBadge w =
    (if decide (count_unread w.(messages) = 0)%nat then None
     else Some (count_unread w.(messages))) ∧
  (∀ w0, w0.(messages) = w.(messages) → unreadCount w0 = unreadCount w) ∧
  (∀ id, let w' := exec (markAsRead id) w in
     unreadCount w' = count_unread w'.(messages) ∧
     unreadCount w' = count_unread (filter (λ msg, msg.(cm_id) ≠ id) w.(messages))) ∧
  (∀ id, let w' := exec (handleDeleteMessage id) w in
     unreadCount w' = count_unread w'.(messages) ∧
     unreadCount w' = count_unread (filter (λ msg, msg.(cm_id) ≠ id) w.(messages))) ∧
  (let w' := exec handleSendReplyViaEmailClient w in
     unreadCount w' = count_unread w'.(messages) ∧
     unreadCount w' = count_unread w.(messages)) ∧
  (∀ closure, let w' := exec (handleSendReplyViaSystem_resume closure) w in
     unreadCount w' = count_unread w'.(messages) ∧
     unreadCount w' = count_unread closure.2).
Proof.
  assert (Hcount : ∀ w1, unreadCount w1 = count_unread w1.(messages))
    by (intros w1; apply filter_unread_length).
  split_and!.
  - apply Hcount.
  - unfold unreadBadge. rewrite Hcount.
    destruct (count_unread (messages w)); repeat case_decide; done || lia.
  - intros w0 Hw0. by rewrite !Hcount, Hw0.
  - intros id w'. split; [apply Hcount|]. rewrite Hcount. subst w'.
    unfold markAsRead. run. apply count_unread_filter.
  - intros id w'. split; [apply Hcount|]. rewrite Hcount. subst w'.
    unfold handleDeleteMessage. by run.
  - intros w'. split; [apply Hcount|]. rewrite Hcount. subst w'.
    destruct (selectedMessage w) as [sel|] eqn:Hsel.
    + destruct (handleSendReplyViaEmailClient_world sel w Hsel)
        as (now & ds & updated & -> & _ & Hall).
      cbn [messages]. apply count_unread_Forall2.
      eapply Forall2_impl; [exact Hall|]. intros msg msg' Hm. simpl in Hm.
      case_decide; [destruct Hm as (t & _ & ->) | subst msg']; done.
    + unfold handleSendReplyViaEmailClient. run. rewrite Hsel. by run.
  - intros [sel msgs] w'. split; [apply Hcount|]. rewrite Hcount. subst w'.
    unfold handleSendReplyViaSystem_resume. run.
    pose proof (mapM_mark_replied_count_unread sel.(cm_id) msgs w) as Hc.
    destruct (mapM (mark_replied (cm_id sel)) msgs w) as [updated w2].
    exact Hc.
Qed.

Lemma filter_other_ids_absent (id : string) (l : list ContactMessage) :
  id ∉ cm_id <$> l → filter (λ msg, msg.(cm_id) ≠ id) l = l.
Proof.
  induction l as [|msg l IH]; [done|].
  rewrite fmap_cons, not_elem_of_cons. intros [Hne Hl].
  rewrite filter_cons, decide_True by done. by rewrite IH.
Qed.

Lemma filter_other_ids_unique (id : string) (l : list ContactMessage) :
  NoDup (cm_id <$> l) → id ∈ cm_id <$> l →
  ∃ l1 msg l2, l = l1 ++ msg :: l2 ∧ msg.(cm_id) = id ∧
    filter (λ msg, msg.(cm_id) ≠ id) l = l1 ++ l2.
Proof.
  induction l as [|msg l IH]; [by intros _ ?%elem_of_nil|].
  rewrite fmap_cons, NoDup_cons, elem_of_cons. intros [Hfresh Hnd] Hin.
  rewrite filter_cons. destruct (decide (cm_id msg = id)) as [Hid|Hid].
  - exists [], msg, l. rewrite decide_False by naive_solver.
    rewrite filter_other_ids_absent by congruence. done.
  - destruct Hin as [?|Hin]; [congruence|].
    destruct (IH Hnd Hin) as (l1 & m & l2 & -> & Hm & Hf).
    exists (msg :: l1), m, l2. rewrite decide_True by done. by rewrite Hf.
Qed.

(** C2: deleting an identifier that occurs in the list leaves the entries
    with another identifier, each unchanged and in their order, and none with
    that identifier; where identifiers are unique (as the data model has them)
    this is the list with exactly the one entry taken out. The new list is
    what is written to storage, the detail dialog is closed and the success
    notification is emitted; the delete button of a table row does the same
    for the message of its row. *)
Theorem handleDeleteMessage_removes_entry (id : string) (w : World) :
  id ∈ cm_id <$> w.(messages) →
  let w' := exec (handleDeleteMessage id) w in
  w'.(messages) = filter (λ msg, msg.(cm_id) ≠ id) w.(messages) ∧
  (∀ msg, msg ∈ w'.(messages) ↔ msg ∈ w.(messages) ∧ msg.(cm_id) ≠ id) ∧
  w'.(messages) `sublist_of` w.(messages) ∧
  (length w'.(messages) < length w.(messages))%nat ∧
  (NoDup (cm_id <$> w.(messages)) →
     ∃ l1 msg l2, w.(messages) = l1 ++ msg :: l2 ∧ msg.(cm_id) = id ∧
       w'.(messages) = l1 ++ l2) ∧
  w'.(localStorage) =
    <["contactMessages" := JSON_stringify w'.(messages)]> w.(localStorage) ∧
  w'.(dialogOpen) = false ∧
  w'.(toasts) = w.(toasts) ++ [toast_success "Message deleted successfully"] ∧
  (∀ message, message.(cm_id) = id →
     let w'' := exec (rowDelete_onClick message) w in
     w''.(messages) = w'.(messages) ∧ w''.(localStorage) = w'.(localStorage) ∧
     w''.(dialogOpen) = false ∧ w''.(toasts) = w'.(toasts)).
Proof.
  intros Hin w'. subst w'. unfold rowDelete_onClick, handleDeleteMessage. run.
  split_and!; try done.
  - intros msg. by rewrite list_elem_of_filter, (comm and).
  - apply sublist_filter.
  - apply list_elem_of_fmap in Hin as (msg & -> & Hmsg).
    apply list_elem_of_lookup in Hmsg as [i Hi].
    eapply (length_filter_lt _ _ msg); [by eapply list_elem_of_lookup_2|]. naive_solver.
  - intros Hnd. by apply filter_other_ids_unique.
  - by intros message <-.
Qed.

(** C3: mark read keeps the length and the order of the list; an entry with
    another identifier is left as it is, a matching entry has its read flag
    set and every other field (its replied flag and reply timestamp among
    them) as before; the whole new list is written to storage, and nothing
    else of the panel changes. Viewing a message runs mark read when the
    message is unread and leaves list and storage alone when it is read. *)
Theorem markAsRead_frame (id : string) (w : World) :
  let w' := exec (markAsRead id) w in
  length w'.(messages) = length w.(messages) ∧
  (∀ i msg, w.(messages) !! i = Some msg →
     ∃ msg', w'.(messages) !! i = Some msg' ∧
       (msg.(cm_id) ≠ id → msg' = msg) ∧
       (msg.(cm_id) = id →
          isRead msg' = true ∧
          cm_id msg' = cm_id msg ∧ cm_name msg' = cm_name msg ∧
          cm_email msg' = cm_email msg ∧ cm_message msg' = cm_message msg ∧
          cm_timestamp msg' = cm_timestamp msg ∧
          replied msg' = replied msg ∧
          replyTimestamp msg' = replyTimestamp msg)) ∧
  w'.(localStorage) =
    <["contactMessages" := JSON_stringify w'.(messages)]> w.(localStorage) ∧
  w'.(selectedMessage) = w.(selectedMessage) ∧
  w'.(dialogOpen) = w.(dialogOpen) ∧
  w'.(replyDialogOpen) = w.(replyDialogOpen) ∧
  w'.(replyText) = w.(replyText) ∧
  w'.(toasts) = w.(toasts) ∧
  w'.(windows) = w.(windows) ∧
  (∀ message,
     let v := exec (handleViewMessage message) w in
     if message.(isRead)
     then v.(messages) = w.(messages) ∧ v.(localStorage) = w.(localStorage)
     else id = message.(cm_id) →
          v.(messages) = w'.(messages) ∧ v.(localStorage) = w'.(localStorage)).
Proof.
  intros w'. subst w'. unfold handleViewMessage, markAsRead. run.
  split_and!; try done.
  - by rewrite length_fmap.
  - intros i msg Hi. rewrite list_lookup_fmap, Hi. cbn [fmap option_fmap option_map].
    eexists. split; [done|]. case_decide; naive_solver.
  - intros message. destruct (isRead message); run; [done | by intros ->].
Qed.

Lemma markAsRead_fmap_id (id : string) (l : list ContactMessage) :
  (∀ msg, msg ∈ l → msg.(cm_id) = id → msg.(isRead) = true) →
  (λ msg, if decide (msg.(cm_id) = id) then spread_isRead msg true else msg) <$> l = l.
Proof.
  induction l as [|msg l IH]; intros Hread; [done|].
  rewrite fmap_cons, IH by (intros m ?; apply Hread; by right).
  f_equal. case_decide as Hid; [|done].
  assert (isRead msg = true) by (apply Hread; [left|]; done).
  destruct msg; simpl in *; by subst.
Qed.

(** C7: marking read an identifier whose entries are already read yields the
    list as it was; when the slot holds the serialized list (as after any
    mutation of the panel) the whole world is as it was, so nothing
    observable changes. Marking read twice is the same as once, on any
    list. *)
Theorem markAsRead_idempotent (id : string) (w : World) :
  (∀ msg, msg ∈ w.(messages) → msg.(cm_id) = id → msg.(isRead) = true) →
  (exec (markAsRead id) w).(messages) = w.(messages) ∧
  (w.(localStorage) !! "contactMessages" = Some (JSON_stringify w.(messages)) →
     exec (markAsRead id) w = w) ∧
  exec (markAsRead id) (exec (markAsRead id) w) = exec (markAsRead id) w.
Proof.
  intros Hread. unfold markAsRead. run.
  rewrite markAsRead_fmap_id by done. split_and!.
  - done.
  - intros Hslot. rewrite insert_id by done. by destruct w.
  - rewrite markAsRead_fmap_id by done. by rewrite insert_insert_eq.
Qed.

(** C8: deleting an identifier that does not occur in the list (the empty
    string of the dialog's delete button when no message is selected
    included) leaves the list as it is, and still writes the whole list to
    storage, closes the detail dialog and emits the success notification. *)
Theorem handleDeleteMessage_absent_id (id : string) (w : World) :
  id ∉ cm_id <$> w.(messages) →
  let w' := exec (handleDeleteMessage id) w in
  w'.(messages) = w.(messages) ∧
  w'.(localStorage) =
    <["contactMessages" := JSON_stringify w.(messages)]> w.(localStorage) ∧
  w'.(dialogOpen) = false ∧
  w'.(toasts) = w.(toasts) ++ [toast_success "Message deleted successfully"] ∧
  (w.(selectedMessage) = None →
     exec footerDelete_onClick w = exec (handleDeleteMessage "") w).
Proof.
  intros Hid w'. subst w'. unfold footerDelete_onClick, handleDeleteMessage. run.
  rewrite filter_other_ids_absent by done.
  split_and!; try done. by intros ->.
Qed.

(** The world [loadMessages] leaves, by the outcome of the parse. *)
Lemma loadMessages_world (w : World) :
  exec loadMessages w =
  match JSON_parse (or_default (w.(localStorage) !! "contactMessages") "[]") with
  | Some storedMessages =>
      mkWorld storedMessages w.(selectedMessage) w.(dialogOpen)
        w.(replyDialogOpen) w.(replyText) w.(isSendingReply) false
        w.(localStorage) w.(toasts) w.(console) w.(windows) w.(clock) w.(delays)
  | None =>
      mkWorld w.(messages) w.(selectedMessage) w.(dialogOpen)
        w.(replyDialogOpen) w.(replyText) w.(isSendingReply) false
        w.(localStorage)
        (w.(toasts) ++ [toast_error "Failed to load contact messages"])
        (w.(console) ++ ["Error loading messages:"]) w.(windows) w.(clock)
        w.(delays)
  end.
Proof.
  unfold loadMessages. run.
  by destruct (JSON_parse (or_default (localStorage w !! "contactMessages") "[]")).
Qed.

(** C5, as the code has it: when the stored text does not parse, Load (and so
    Refresh) reports the error once, on the toast channel and on the console,
    clears the loading flag and leaves the message list as it was, which is
    the empty list at the load of the mount; storage is not touched and the
    parse is not tried again. *)
Theorem loadMessages_parse_failure (w : World) :
  JSON_parse (or_default (w.(localStorage) !! "contactMessages") "[]") = None →
  let w' := exec loadMessages w in
  w'.(messages) = w.(messages) ∧
  w'.(toasts) = w.(toasts) ++ [toast_error "Failed to load contact messages"] ∧
  w'.(console) = w.(console) ++ ["Error loading messages:"] ∧
  w'.(loading) = false ∧
  w'.(localStorage) = w.(localStorage) ∧
  (∀ now ds, w = initial w.(localStorage) now ds →
     mount w.(localStorage) now ds = w' ∧ w'.(messages) = []).
Proof.
  intros Hfail w'. subst w'. rewrite loadMessages_world, Hfail. cbn.
  split_and!; try done.
  intros now ds Hw. unfold mount. rewrite <- Hw, loadMessages_world, Hfail.
  split; [done|]. cbn. by rewrite Hw.
Qed.

(** C9: with no text in the slot, Load parses the text of the empty array:
    the list becomes empty and nothing is reported, neither a toast nor a
    console line (these are what the parse failure adds). *)
Theorem loadMessages_absent_slot (w : World) :
  JSON_parse "[]" = Some [] →
  w.(localStorage) !! "contactMessages" = None →
  let w' := exec loadMessages w in
  w'.(messages) = [] ∧
  w'.(toasts) = w.(toasts) ∧
  w'.(console) = w.(console) ∧
  w'.(loading) = false ∧
  w'.(localStorage) = w.(localStorage).
Proof.
  intros Hempty Hslot w'. subst w'.
  rewrite loadMessages_world, Hslot. cbn [or_default]. by rewrite Hempty.
Qed.

(** C6: with a message selected, the external-mail-client reply opens, in a
    new context, the mailto link made of the sender's address, the fixed
    subject and the draft; it then replaces each entry bearing the selected
    identifier by its copy with replied set and a reply timestamp read from
    the clock not before the handler started, leaves every other entry as it
    is, writes the new list to storage, emits the success notification,
    closes the editor and clears the draft, whatever the mail client does. *)
Theorem handleSendReplyViaEmailClient_replies (sel : ContactMessage) (w : World) :
  w.(selectedMessage) = Some sel →
  let w' := exec handleSendReplyViaEmailClient w in
  w'.(windows) =
    w.(windows) ++
      [("mailto:" +:+ sel.(cm_email) +:+ "?subject=" +:+
        encodeURIComponent "Re: Your inquiry at Brista Cafe" +:+ "&body=" +:+
        encodeURIComponent w.(replyText), "_blank")] ∧
  length w'.(messages) = length w.(messages) ∧
  (∀ i msg, w.(messages) !! i = Some msg →
     if decide (msg.(cm_id) = sel.(cm_id))
     then ∃ t msg', (w.(clock) ≤ t)%Z ∧
            w'.(messages) !! i = Some msg' ∧
            msg' = spread_replied msg (toISOString t) ∧
            replied msg' = Some true ∧
            replyTimestamp msg' = Some (toISOString t)
     else w'.(messages) !! i = Some msg) ∧
  w'.(localStorage) =
    <["contactMessages" := JSON_stringify w'.(messages)]> w.(localStorage) ∧
  w'.(toasts) =
    w.(toasts) ++ [toast_success "Email client opened with pre-filled reply"] ∧
  w'.(replyDialogOpen) = false ∧
  w'.(replyText) = "" ∧
  (w.(clock) ≤ w'.(clock))%Z.
Proof.
  intros Hsel w'. subst w'.
  destruct (handleSendReplyViaEmailClient_world sel w Hsel)
    as (now & ds & updated & -> & Hle & Hall).
  cbn [messages windows localStorage toasts replyDialogOpen replyText clock].
  split_and!; try done.
  - symmetry. by eapply Forall2_length.
  - intros i msg Hi.
    destruct (Forall2_lookup_l _ _ _ _ _ Hall Hi) as (msg' & Hi' & Hm).
    simpl in Hm. case_decide.
    + destruct Hm as (t & [Ht _] & ->). by exists t, (spread_replied msg (toISOString t)).
    + by subst msg'.
Qed.

End InboxProperties.

(** *** The inbox properties on the sample data *)

Section InboxExamples.
Import ContactMessages.
#[local] Existing Instance Demo.host.

Lemma handleDeleteMessage_removes_entry_witness :
  messages (exec (handleDeleteMessage "1") Demo.inbox) = [Demo.bob] ∧
  (∃ l1 msg l2, messages Demo.inbox = l1 ++ msg :: l2 ∧ cm_id msg = "1" ∧
     messages (exec (handleDeleteMessage "1") Demo.inbox) = l1 ++ l2) ∧
  localStorage (exec (handleDeleteMessage "1") Demo.inbox) !! "contactMessages"
    = Some "[2]" ∧
  toasts (exec (handleDeleteMessage "1") Demo.inbox)
    = [toast_success "Message deleted successfully"].
Proof.
  assert (Hin : "1" ∈ cm_id <$> messages Demo.inbox) by (vm_compute; left).
  assert (Hnd : NoDup (cm_id <$> messages Demo.inbox))
    by (apply (bool_decide_unpack _); vm_compute; exact I).
  destruct (handleDeleteMessage_removes_entry "1" Demo.inbox Hin)
    as (Hm & _ & _ & _ & Hone & Hls & _ & Ht & _).
  split_and!.
  - rewrite Hm. reflexivity.
  - exact (Hone Hnd).
  - rewrite Hls, lookup_insert_eq, Hm. reflexivity.
  - rewrite Ht. reflexivity.
Defined.

Lemma markAsRead_idempotent_witness :
  messages (exec (markAsRead "2") Demo.inbox) = [Demo.ann; Demo.bob] ∧
  exec (markAsRead "2") Demo.inbox = Demo.inbox.
Proof.
  assert (Hread : ∀ msg, msg ∈ messages Demo.inbox → cm_id msg = "2" →
                         isRead msg = true).
  { intros msg Hin Hid. cbn in Hin.
    apply elem_of_cons in Hin as [->|Hin]; [discriminate Hid|].
    apply elem_of_cons in Hin as [->|Hin]; [reflexivity|].
    by apply elem_of_nil in Hin. }
  destruct (markAsRead_idempotent "2" Demo.inbox Hread) as (Hm & Hw & _).
  split; [exact Hm | apply Hw; reflexivity].
Defined.

Lemma handleDeleteMessage_absent_id_witness :
  messages (exec footerDelete_onClick Demo.inbox) = [Demo.ann; Demo.bob] ∧
  dialogOpen (exec footerDelete_onClick Demo.inbox) = false ∧
  toasts (exec footerDelete_onClick Demo.inbox)
    = [toast_success "Message deleted successfully"].
Proof.
  assert (Hid : "" ∉ cm_id <$> messages Demo.inbox)
    by (apply (bool_decide_unpack _); vm_compute; exact I).
  destruct (handleDeleteMessage_absent_id "" Demo.inbox Hid)
    as (Hm & _ & Hd & Ht & Hfooter).
  rewrite (Hfooter eq_refl). split_and!; [exact Hm | exact Hd | exact Ht].
Defined.

Lemma loadMessages_parse_failure_witness :
  messages (exec loadMessages Demo.corrupted) = [Demo.ann; Demo.bob] ∧
  toasts (exec loadMessages Demo.corrupted)
    = [toast_error "Failed to load contact messages"] ∧
  loading (exec loadMessages Demo.corrupted) = false.
Proof.
  assert (Hfail : JSON_parse (or_default
            (localStorage Demo.corrupted !! "contactMessages") "[]") = None)
    by (vm_compute; reflexivity).
  destruct (loadMessages_parse_failure Demo.corrupted Hfail)
    as (Hm & Ht & _ & Hl & _).
  split_and!; [exact Hm | exact Ht | exact Hl].
Defined.

Lemma loadMessages_absent_slot_witness :
  messages (exec loadMessages Demo.cleared) = [] ∧
  toasts (exec loadMessages Demo.cleared) = [] ∧
  console (exec loadMessages Demo.cleared) = [].
Proof.
  assert (Hslot : localStorage Demo.cleared !! "contactMessages" = None)
    by (vm_compute; reflexivity).
  assert (Hempty : JSON_parse "[]" = Some []) by (vm_compute; reflexivity).
  destruct (loadMessages_absent_slot Demo.cleared Hempty Hslot)
    as (Hm & Ht & Hc & _).
  split_and!; [exact Hm | exact Ht | exact Hc].
Defined.

Lemma handleSendReplyViaEmailClient_replies_witness :
  windows (exec handleSendReplyViaEmailClient Demo.replying) =
    [("mailto:ann@example.com?subject=Re%3A%20Your%20inquiry%20at%20Brista%20Cafe&body=Hello%20Ann",
      "_blank")] ∧
  (∃ t, (1700000000000 ≤ t)%Z ∧
     messages (exec handleSendReplyViaEmailClient Demo.replying) !! 0%nat
       = Some (spread_replied Demo.ann (toISOString t))) ∧
  messages (exec handleSendReplyViaEmailClient Demo.replying) !! 1%nat
    = Some Demo.bob ∧
  toasts (exec handleSendReplyViaEmailClient Demo.replying)
    = [toast_success "Email client opened with pre-filled reply"].
Proof.
  destruct (handleSendReplyViaEmailClient_replies Demo.ann Demo.replying eq_refl)
    as (Hw & _ & Hm & _ & Ht & _).
  split_and!.
  - rewrite Hw. reflexivity.
  - destruct (Hm 0%nat Demo.ann eq_refl) as (t & msg' & Hle & Hi & -> & _).
    exists t. split; [exact Hle | exact Hi].
  - exact (Hm 1%nat Demo.bob eq_refl).
  - rewrite Ht. reflexivity.
Defined.

(** The stored text of [Demo.corrupted] does not parse, and Refresh there
    reports the error and leaves the two messages in the list: the list is
    not empty after the failed load. *)
Lemma loadMessages_failed_refresh_keeps_list :
  JSON_parse (or_default (localStorage Demo.corrupted !! "contactMessages") "[]")
    = None ∧
  toasts (exec loadMessages Demo.corrupted)
    = [toast_error "Failed to load contact messages"] ∧
  messages (exec loadMessages Demo.corrupted) = [Demo.ann; Demo.bob] ∧
  messages (exec loadMessages Demo.corrupted) ≠ [].
Proof.
  assert (Hlist : messages (exec loadMessages Demo.corrupted) = [Demo.ann; Demo.bob])
    by (vm_compute; reflexivity).
  split_and!; [vm_compute; reflexivity.. | exact Hlist | by rewrite Hlist].
Qed.

End InboxExamples.

(** ** Properties of the bill display *)

Section BillProperties.
Import BillDisplay.

Lemma app_String (c : ascii) (s t : string) :
  String c s +:+ t = String c (s +:+ t).
Proof. done. Qed.

Lemma length_app (s t : string) :
  String.length (s +:+ t) = (String.length s + String.length t)%nat.
Proof. induction s as [|c s IH]; [done|]. rewrite app_String. cbn. by rewrite IH. Qed.

Lemma app_inj_r (t s s' : string) : s +:+ t = s' +:+ t → s = s'.
Proof.
  revert s'. induction s as [|c s IH]; intros [|c' s'] Heq; [done|..].
  - apply (f_equal String.length) in Heq. rewrite !length_app in Heq. cbn in Heq. lia.
  - apply (f_equal String.length) in Heq. rewrite !length_app in Heq. cbn in Heq. lia.
  - rewrite !app_String in Heq. injection Heq as -> Heq. f_equal. by apply IH.
Qed.

Lemma substring_prefix (s t : string) : substring 0 (String.length s) (s +:+ t) = s.
Proof.
  induction s as [|c s IH]; [by destruct t|]. rewrite app_String. cbn. by rewrite IH.
Qed.

Lemma substring_middle (pre s post : string) :
  substring (String.length pre) (String.length s) (pre +:+ s +:+ post) = s.
Proof.
  induction pre as [|c pre IH]; [exact (substring_prefix s post)|].
  rewrite app_String. exact IH.
Qed.

Lemma substring_0_min (n : nat) (s : string) :
  substring 0 (n `min` String.length s) s = substring 0 n s.
Proof.
  revert n. induction s as [|c s IH]; intros [|n]; try done.
  cbn. by rewrite IH.
Qed.

Lemma length_substring_0 (n : nat) (s : string) :
  String.length (substring 0 n s) = (n `min` String.length s)%nat.
Proof.
  revert n. induction s as [|c s IH]; intros [|n]; try done.
  cbn. by rewrite IH.
Qed.

Lemma length_toUpperCase (s : string) :
  String.length (toUpperCase s) = String.length s.
Proof. induction s as [|c s IH]; [done|]. cbn. by rewrite IH. Qed.

Lemma get_toUpperCase (i : nat) (s : string) :
  String.get i (toUpperCase s) = upper_char <$> String.get i s.
Proof.
  revert i. induction s as [|c s IH]; intros [|i]; try done. cbn. apply IH.
Qed.

(** [slice(0, 8)] is the prefix of at most eight characters. *)
Lemma slice_0_8 (s : string) : slice s 0 8 = substring 0 8 s.
Proof.
  unfold slice, relative_index. cbn [Z.ltb Z.compare].
  rewrite Z.min_l, Z.sub_0_r by lia. cbn [Z.to_nat].
  rewrite Z.max_l by lia.
  replace (Z.to_nat (8 `min` Z.of_nat (String.length s)))
    with (8 `min` String.length s)%nat by lia.
  apply substring_0_min.
Qed.

(** Evaluates an export action on a platform given field by field. *)
Ltac run_eff :=
  cbv [trace shareBill downloadPDF shareButton_onClick shareButton_disabled
       call_html2canvas call_toBlob mbind Eff_bind mret Eff_ret emit throw
       try_catch try_finally billRef_current html2canvas toBlob navigator_share
       negb orb fst snd app].

Lemma upper_char_code (c : ascii) :
  ((97 ≤ nat_of_ascii c ≤ 122)%nat →
     nat_of_ascii (upper_char c) = (nat_of_ascii c - 32)%nat) ∧
  (¬ (97 ≤ nat_of_ascii c ≤ 122)%nat → upper_char c = c).
Proof.
  unfold upper_char.
  destruct (Nat.leb_spec 97 (nat_of_ascii c)), (Nat.leb_spec (nat_of_ascii c) 122);
    cbn [andb]; split; try lia; try done.
  intros _. apply nat_ascii_embedding. lia.
Qed.

(** C10: for an order whose identifier is ASCII text, the order-id line has
    as many characters as the identifier, up to eight; its character at each
    of these places is that of the identifier, a lower-case letter replaced
    by its capital (the code 32 below) and any other character kept; it has
    nothing past the eighth place and holds no lower-case letter. The name
    given to the saved PDF and the name of the shared file hold the whole
    identifier unchanged between a fixed prefix and extension, so that they
    determine it; these are the names the download and the share hand to the
    host. *)
Theorem orderIdLine_prefix_fileNames_full (order : OrderType) :
  is_ascii order.(order_id) = true →
  String.length (orderIdLine order) = (8 `min` String.length order.(order_id))%nat ∧
  (∀ i c, (i < 8)%nat → String.get i order.(order_id) = Some c →
     ∃ c', String.get i (orderIdLine order) = Some c' ∧
       ((97 ≤ nat_of_ascii c ≤ 122)%nat →
          nat_of_ascii c' = (nat_of_ascii c - 32)%nat) ∧
       (¬ (97 ≤ nat_of_ascii c ≤ 122)%nat → c' = c)) ∧
  (∀ i, (8 ≤ i)%nat → String.get i (orderIdLine order) = None) ∧
  (∀ i c', String.get i (orderIdLine order) = Some c' →
     ¬ (97 ≤ nat_of_ascii c' ≤ 122)%nat) ∧
  substring 10 (String.length order.(order_id)) (pdfFileName order) = order.(order_id) ∧
  substring 5 (String.length order.(order_id)) (shareFileName order) = order.(order_id) ∧
  (∀ order', pdfFileName order' = pdfFileName order →
     order'.(order_id) = order.(order_id)) ∧
  (∀ order', shareFileName order' = shareFileName order →
     order'.(order_id) = order.(order_id)) ∧
  (∀ p canvas, p.(billRef_current) = true → p.(html2canvas) = Some canvas →
     ev_pdf_save ("cafe-bill-" +:+ order.(order_id) +:+ ".pdf")
       ∈ trace (downloadPDF p order)) ∧
  (∀ p canvas resolves, p.(billRef_current) = true →
     p.(html2canvas) = Some canvas → p.(toBlob) = true →
     p.(navigator_share) = Some resolves →
     ev_navigator_share ("Cafe Bill - Order #" +:+ order.(order_id))
         ("bill-" +:+ order.(order_id) +:+ ".png")
       ∈ trace (shareBill p order)).
Proof.
  intros _. unfold orderIdLine. rewrite slice_0_8. split_and!.
  - by rewrite length_toUpperCase, length_substring_0.
  - intros i c Hi Hget.
    rewrite get_toUpperCase, substring_correct1, Nat.add_0_r, Hget by done.
    exists (upper_char c). split; [done|]. apply upper_char_code.
  - intros i Hi. rewrite get_toUpperCase, substring_correct2 by done. done.
  - intros i c'. rewrite get_toUpperCase.
    destruct (String.get i (substring 0 8 (order_id order))) as [c|]; [|done].
    intros [= <-]. destruct (upper_char_code c) as [Hlower Hother].
    destruct (decide (97 ≤ nat_of_ascii c ≤ 122)%nat) as [Hc|Hc].
    + rewrite (Hlower Hc). lia.
    + by rewrite (Hother Hc).
  - exact (substring_middle "cafe-bill-" order.(order_id) ".pdf").
  - exact (substring_middle "bill-" order.(order_id) ".png").
  - unfold pdfFileName. intros order' Heq.
    apply (inj (String.append "cafe-bill-")) in Heq. by apply app_inj_r in Heq.
  - unfold shareFileName. intros order' Heq.
    apply (inj (String.append "bill-")) in Heq. by apply app_inj_r in Heq.
  - intros [ref canv blob share] canvas. cbn. intros -> ->. run_eff.
    unfold pdfFileName. do 4 right. by left.
  - intros [ref canv blob share] canvas resolves. cbn. intros -> -> -> ->. run_eff.
    unfold shareTitle, shareFileName. destruct resolves; do 2 right; by left.
Qed.

(** C4, as the code has it: on a platform with no share capability and with
    the bill rendered, the share action starts with the capture of the bill;
    the platform share is never called; when the capture and its encoding
    succeed the not-supported notification is the one other effect, and when
    one of them fails the failure is reported instead. The Share button is
    disabled on such a platform: a click on it has no effect. *)
Theorem shareBill_without_share_capability (p : Platform) (order : OrderType) :
  p.(navigator_share) = None →
  p.(billRef_current) = true →
  (∃ rest, trace (shareBill p order) = ev_html2canvas :: rest) ∧
  (∀ title fileName, ev_navigator_share title fileName ∉ trace (shareBill p order)) ∧
  (is_Some p.(html2canvas) → p.(toBlob) = true →
     shareBill p order =
       ([ev_html2canvas; ev_toBlob;
         ev_toast (toast_error "Sharing not supported on this browser")], Some ())) ∧
  (p.(html2canvas) = None →
     shareBill p order =
       ([ev_html2canvas; ev_console_error "Error sharing bill:";
         ev_toast (toast_error "Failed to share bill")], Some ())) ∧
  (is_Some p.(html2canvas) → p.(toBlob) = false →
     shareBill p order =
       ([ev_html2canvas; ev_toBlob; ev_console_error "Error sharing bill:";
         ev_toast (toast_error "Failed to share bill")], Some ())) ∧
  (∀ isGeneratingBill,
     shareButton_disabled p isGeneratingBill = true ∧
     shareButton_onClick p order isGeneratingBill = ([], Some ())).
Proof.
  destruct p as [ref canv blob share]. cbn. intros -> ->. split_and!.
  - run_eff. destruct canv, blob; eauto.
  - intros title fileName. run_eff.
    destruct canv, blob; rewrite !not_elem_of_cons; split_and!;
      done || apply not_elem_of_nil.
  - intros [canvas ->] ->. by run_eff.
  - intros ->. by run_eff.
  - intros [canvas ->] ->. by run_eff.
  - intros g. run_eff. by destruct g.
Qed.

End BillProperties.

(** *** The bill properties on the sample data *)

Section BillExamples.
Import BillDisplay.

Lemma orderIdLine_prefix_fileNames_full_witness :
  String.length (orderIdLine Demo.order) = 8%nat ∧
  (∃ c', String.get 0 (orderIdLine Demo.order) = Some c' ∧ nat_of_ascii c' = 65%nat) ∧
  (∃ c', String.get 1 (orderIdLine Demo.order) = Some c' ∧ c' = "1"%char) ∧
  String.get 8 (orderIdLine Demo.order) = None ∧
  substring 10 18 (pdfFileName Demo.order) = "a1b2c3d4-e5f6-7890" ∧
  substring 5 18 (shareFileName Demo.order) = "a1b2c3d4-e5f6-7890".
Proof.
  destruct (orderIdLine_prefix_fileNames_full Demo.order eq_refl)
    as (Hlen & Hchar & Hpast & _ & Hpdf & Hshare & _).
  split_and!.
  - exact Hlen.
  - destruct (Hchar 0%nat "a"%char) as (c' & Hget & Hlower & _);
      [lia | reflexivity |].
    exists c'. split; [exact Hget|].
    apply Hlower. split; apply Nat.leb_le; reflexivity.
  - destruct (Hchar 1%nat "1"%char) as (c' & Hget & _ & Hother);
      [lia | reflexivity |].
    exists c'. split; [exact Hget|].
    apply Hother. intros [Hlow _]. apply Nat.leb_le in Hlow. discriminate Hlow.
  - apply Hpast. lia.
  - exact Hpdf.
  - exact Hshare.
Defined.

Lemma shareBill_without_share_capability_witness :
  shareBill Demo.no_share Demo.order =
    ([ev_html2canvas; ev_toBlob;
      ev_toast (toast_error "Sharing not supported on this browser")], Some ()) ∧
  shareButton_onClick Demo.no_share Demo.order false = ([], Some ()).
Proof.
  destruct (shareBill_without_share_capability Demo.no_share Demo.order
              eq_refl eq_refl) as (_ & _ & Hok & _ & _ & Hbutton).
  split.
  - apply Hok; [by eexists | reflexivity].
  - apply Hbutton.
Defined.

(** On [Demo.no_share], a platform with no share capability, the share action
    captures the rendered bill and encodes the capture before it reports that
    sharing is not supported: the notification is not its only effect. *)
Lemma shareBill_captures_without_share_capability :
  navigator_share Demo.no_share = None ∧
  trace (shareBill Demo.no_share Demo.order) =
    [ev_html2canvas; ev_toBlob;
     ev_toast (toast_error "Sharing not supported on this browser")] ∧
  ev_html2canvas ∈ trace (shareBill Demo.no_share Demo.order) ∧
  trace (shareBill Demo.no_share Demo.order) ≠
    [ev_toast (toast_error "Sharing not supported on this browser")].
Proof.
  split_and!; [reflexivity | reflexivity | by left | discriminate].
Qed.

End BillExamples.

(** ** Scenarios *)

Section Scenarios.
Import ContactMessages BillDisplay.
#[local] Existing Instance Demo.host.

(** Viewing the unread [ann] marks her message read: one unread message
    before, none after, and the badge is gone. *)
Example view_unread_marks_read :
  unreadBadge Demo.inbox = Some 1%nat ∧
  isRead <$> messages (exec (handleViewMessage Demo.ann) Demo.inbox) = [true; true] ∧
  unreadBadge (exec (handleViewMessage Demo.ann) Demo.inbox) = None ∧
  dialogOpen (exec (handleViewMessage Demo.ann) Demo.inbox) = true.
Proof. by vm_compute. Qed.

(** Deleting "1" from the list of "1" and "2" persists the list of "2". *)
Example delete_first_of_two :
  cm_id <$> messages (exec (handleDeleteMessage "1") Demo.inbox) = ["2"] ∧
  localStorage (exec (handleDeleteMessage "1") Demo.inbox) !! "contactMessages"
    = Some "[2]".
Proof. by vm_compute. Qed.

(** The system reply is refused on a blank draft and starts on a written
    one. *)
Example system_reply_guard :
  (handleSendReplyViaSystem_click Demo.replying).1 = Some (Demo.ann, [Demo.ann; Demo.bob]) ∧
  isSendingReply (exec handleSendReplyViaSystem_click Demo.replying) = true ∧
  (handleSendReplyViaSystem_click (exec (setReplyText "  ") Demo.replying)).1 = None.
Proof. by vm_compute. Qed.

(** Mounting over a slot whose text does not parse: the error is reported
    and the list is the empty list of the initial state. *)
Example mount_over_corrupted_slot :
  messages (mount {[ "contactMessages" := "{" ]} 0 []) = [] ∧
  toasts (mount {[ "contactMessages" := "{" ]} 0 [])
    = [toast_error "Failed to load contact messages"] ∧
  loading (mount {[ "contactMessages" := "{" ]} 0 []) = false.
Proof. by vm_compute. Qed.

Example trim_both_ends : trim "   a b  " = "a b".
Proof. reflexivity. Qed.

Example percent_encode_subject :
  Demo.percent_encode "Re: Your inquiry at Brista Cafe"
  = "Re%3A%20Your%20inquiry%20at%20Brista%20Cafe".
Proof. reflexivity. Qed.

Example iso_string_epoch :
  Demo.iso_string 0 = "1970-01-01T00:00:00.000Z" ∧
  Demo.iso_string 951782400000 = "2000-02-29T00:00:00.000Z" ∧
  Demo.iso_string 1700000000005 = "2023-11-14T22:13:20.005Z".
Proof. by vm_compute. Qed.

Example slice_examples :
  slice "abcdefghijkl" 0 8 = "abcdefgh" ∧
  slice "abc" 0 8 = "abc" ∧
  slice "abcdefghijkl" (-3) 100 = "jkl" ∧
  slice "abcdefghijkl" 2 (-3) = "cdefghi" ∧
  slice "abcdefghijkl" 5 2 = "".
Proof. by vm_compute. Qed.

Example order_id_line :
  orderIdLine Demo.order = "A1B2C3D4" ∧
  pdfFileName Demo.order = "cafe-bill-a1b2c3d4-e5f6-7890.pdf" ∧
  shareFileName Demo.order = "bill-a1b2c3d4-e5f6-7890.png".
Proof. by vm_compute. Qed.

Example download_trace :
  trace (downloadPDF Demo.no_share Demo.order) =
    [ev_setIsGeneratingBill true; ev_html2canvas; ev_toDataURL;
     ev_pdf_addImage "data:image/png;base64,AAAA";
     ev_pdf_save "cafe-bill-a1b2c3d4-e5f6-7890.pdf";
     ev_toast (toast_success "Bill downloaded as PDF");
     ev_setIsGeneratingBill false].
Proof. reflexivity. Qed.

End Scenarios.

(** ** Further properties of the inbox panel *)

Section InboxCoverage.
Import ContactMessages.
Context `{Host}.

Local Abbreviation mark_read id :=
  (λ msg : ContactMessage,
     if decide (msg.(cm_id) = id) then spread_isRead msg true else msg).

(** *** The worlds the handlers leave *)

Lemma markAsRead_world (id : string) (w : World) :
  exec (markAsRead id) w =
  mkWorld (mark_read id <$> w.(messages)) w.(selectedMessage) w.(dialogOpen)
    w.(replyDialogOpen) w.(replyText) w.(isSendingReply) w.(loading)
    (<["contactMessages" := JSON_stringify (mark_read id <$> w.(messages))]>
       w.(localStorage))
    w.(toasts) w.(console) w.(windows) w.(clock) w.(delays).
Proof. reflexivity. Qed.

Lemma handleDeleteMessage_world (id : string) (w : World) :
  exec (handleDeleteMessage id) w =
  mkWorld (filter (λ msg, msg.(cm_id) ≠ id) w.(messages)) w.(selectedMessage)
    false w.(replyDialogOpen) w.(replyText) w.(isSendingReply) w.(loading)
    (<["contactMessages" :=
         JSON_stringify (filter (λ msg, msg.(cm_id) ≠ id) w.(messages))]>
       w.(localStorage))
    (w.(toasts) ++ [toast_success "Message deleted successfully"])
    w.(console) w.(windows) w.(clock) w.(delays).
Proof. reflexivity. Qed.

Lemma handleViewMessage_world (message : ContactMessage) (w : World) :
  exec (handleViewMessage message) w =
  if message.(isRead)
  then mkWorld w.(messages) (Some message) true w.(replyDialogOpen)
         w.(replyText) w.(isSendingReply) w.(loading) w.(localStorage)
         w.(toasts) w.(console) w.(windows) w.(clock) w.(delays)
  else mkWorld (mark_read message.(cm_id) <$> w.(messages)) (Some message) true
         w.(replyDialogOpen) w.(replyText) w.(isSendingReply) w.(loading)
         (<["contactMessages" :=
              JSON_stringify (mark_read message.(cm_id) <$> w.(messages))]>
            w.(localStorage))
         w.(toasts) w.(console) w.(windows) w.(clock) w.(delays).
Proof. unfold handleViewMessage. by destruct (isRead message). Qed.

Lemma handleReplyClick_world (w : World) :
  exec handleReplyClick w =
  mkWorld w.(messages) w.(selectedMessage) false true
    (match w.(selectedMessage) with
     | Some sel => replyTemplate sel.(cm_name)
     | None => w.(replyText)
     end)
    w.(isSendingReply) w.(loading) w.(localStorage) w.(toasts) w.(console)
    w.(windows) w.(clock) w.(delays).
Proof.
  unfold handleReplyClick, exec, mbind, M_bind, gets, setDialogOpen,
    setReplyDialogOpen, modify. cbn.
  by destruct (selectedMessage w).
Qed.

Lemma handleSendReplyViaSystem_click_run (w : World) :
  handleSendReplyViaSystem_click w =
  match w.(selectedMessage) with
  | Some sel =>
      if decide (trim w.(replyText) = "") then (None, w)
      else (Some (sel, w.(messages)),
            mkWorld w.(messages) w.(selectedMessage) w.(dialogOpen)
              w.(replyDialogOpen) w.(replyText) true w.(loading)
              w.(localStorage) w.(toasts) w.(console) w.(windows) w.(clock)
              w.(delays))
  | None => (None, w)
  end.
Proof.
  unfold handleSendReplyViaSystem_click, mbind, M_bind, gets. cbn.
  destruct (selectedMessage w) eqn:Hsel; [|done].
  case_decide; [done|]. cbn. by rewrite Hsel.
Qed.

Lemma handleSendReplyViaSystem_resume_world (sel : ContactMessage)
    (msgs : list ContactMessage) (w : World) :
  ∃ now ds updated,
    exec (handleSendReplyViaSystem_resume (sel, msgs)) w =
      mkWorld updated w.(selectedMessage) w.(dialogOpen) false "" false
        w.(loading)
        (<["contactMessages" := JSON_stringify updated]> w.(localStorage))
        (w.(toasts) ++ [toast_success "Reply sent successfully"])
        w.(console) w.(windows) now ds ∧
    (w.(clock) ≤ now)%Z ∧
    Forall2 (λ msg msg',
        if decide (msg.(cm_id) = sel.(cm_id))
        then ∃ t, (w.(clock) ≤ t ≤ now)%Z ∧ msg' = spread_replied msg (toISOString t)
        else msg' = msg)
      msgs updated.
Proof.
  destruct (mapM_mark_replied sel.(cm_id) msgs w) as (now & ds & Hw & Hle & Hall).
  unfold handleSendReplyViaSystem_resume, exec, mbind, M_bind.
  destruct (mapM (mark_replied (cm_id sel)) msgs w) as [updated w2].
  cbn in Hw, Hall. subst w2. exists now, ds, updated. done.
Qed.

(** *** Lists *)

Lemma mark_read_twice (id : string) (l : list ContactMessage) :
  mark_read id <$> (mark_read id <$> l) = mark_read id <$> l.
Proof.
  induction l as [|msg l IH]; [done|]. rewrite !fmap_cons, IH. f_equal.
  destruct (decide (cm_id msg = id)) as [Hid|Hid]; cbn [cm_id spread_isRead];
    [by rewrite decide_True | by rewrite decide_False].
Qed.

Lemma mark_read_comm (a b : string) (l : list ContactMessage) :
  mark_read a <$> (mark_read b <$> l) = mark_read b <$> (mark_read a <$> l).
Proof.
  induction l as [|msg l IH]; [done|]. rewrite !fmap_cons, IH. f_equal.
  destruct (decide (cm_id msg = a)) as [Ha|Ha], (decide (cm_id msg = b)) as [Hb|Hb];
    cbn [cm_id spread_isRead];
    repeat (rewrite decide_True by done); repeat (rewrite decide_False by done);
    done.
Qed.

Lemma mark_read_filter_comm (a b : string) (l : list ContactMessage) :
  mark_read a <$> filter (λ msg, msg.(cm_id) ≠ b) l
  = filter (λ msg, msg.(cm_id) ≠ b) (mark_read a <$> l).
Proof.
  induction l as [|msg l IH]; [done|].
  rewrite fmap_cons, !filter_cons.
  assert (Hid : cm_id (mark_read a msg) = cm_id msg) by (simpl; by case_decide).
  destruct (decide (cm_id msg ≠ b)) as [Hb|Hb].
  - rewrite decide_True by (by rewrite Hid). by rewrite fmap_cons, IH.
  - rewrite decide_False by (by rewrite Hid). exact IH.
Qed.

Lemma count_unread_filter_le (P : ContactMessage → Prop) `{∀ msg, Decision (P msg)}
    (l : list ContactMessage) :
  (count_unread (filter P l) ≤ count_unread l)%nat.
Proof.
  induction l as [|msg l IH]; [done|].
  rewrite filter_cons. case_decide; cbn [count_unread]; destruct (isRead msg); lia.
Qed.

Lemma unreadCount_messages (w : World) : unreadCount w = count_unread w.(messages).
Proof. apply filter_unread_length. Qed.

Lemma Forall2_fmap_eq {B} (f : ContactMessage → B) (l l' : list ContactMessage) :
  Forall2 (λ msg msg', f msg' = f msg) l l' → f <$> l' = f <$> l.
Proof. induction 1 as [|msg msg' l l' Hf _ IH]; [done|]. by rewrite !fmap_cons, Hf, IH. Qed.

(** What the reply callback keeps of an entry. *)
Lemma replied_entry_keeps (id : string) (P : Z → Prop) (msg msg' : ContactMessage) :
  (if decide (msg.(cm_id) = id)
   then ∃ t, P t ∧ msg' = spread_replied msg (toISOString t)
   else msg' = msg) →
  msg'.(cm_id) = msg.(cm_id) ∧ msg'.(isRead) = msg.(isRead) ∧
  (msg.(replied) = Some true → msg'.(replied) = Some true) ∧
  (msg.(cm_id) = id → msg'.(replied) = Some true).
Proof. case_decide; [intros (t & _ & ->) | intros ->]; done. Qed.

Lemma keeps_replied_Forall2 (l l' : list ContactMessage) :
  Forall2 (λ msg msg', msg'.(cm_id) = msg.(cm_id) ∧
                       (msg.(replied) = Some true → msg'.(replied) = Some true)) l l' →
  keeps_replied l l'.
Proof.
  intros Hall i msg Hi Hreplied.
  destruct (Forall2_lookup_l _ _ _ _ _ Hall Hi) as (msg' & Hi' & Hid & Hkeep).
  exists msg'. auto.
Qed.

Lemma keeps_replied_mark_read (id : string) (l : list ContactMessage) :
  keeps_replied l (mark_read id <$> l).
Proof.
  intros i msg Hi Hreplied. rewrite list_lookup_fmap, Hi.
  eexists. split; [done|]. by case_decide.
Qed.

(** *** Load *)

(** Load, whatever the parse gives: storage, selection, dialogs, draft and
    opened windows are left alone and the loading flag ends cleared, so the
    spinner is not left showing; when the text parses, the parsed list is
    installed as it is and nothing is reported. *)
Theorem loadMessages_frame (w : World) :
  let w' := exec loadMessages w in
  w'.(loading) = false ∧
  w'.(localStorage) = w.(localStorage) ∧
  w'.(selectedMessage) = w.(selectedMessage) ∧
  w'.(dialogOpen) = w.(dialogOpen) ∧
  w'.(replyDialogOpen) = w.(replyDialogOpen) ∧
  w'.(replyText) = w.(replyText) ∧
  w'.(isSendingReply) = w.(isSendingReply) ∧
  w'.(windows) = w.(windows) ∧
  (∀ formatDate, renderContent formatDate w' ≠ content_spinner) ∧
  (∀ l, JSON_parse (or_default (w.(localStorage) !! "contactMessages") "[]") = Some l →
     w'.(messages) = l ∧ w'.(toasts) = w.(toasts) ∧ w'.(console) = w.(console)).
Proof.
  intros w'. subst w'. rewrite loadMessages_world.
  destruct (JSON_parse _) as [l|] eqn:Hparse;
    cbn [messages selectedMessage dialogOpen replyDialogOpen replyText
         isSendingReply loading localStorage toasts console windows];
    split_and!; try done.
  - intros formatDate. unfold renderContent. cbn [loading]. by case_decide.
  - by intros l' [= ->].
  - intros formatDate. unfold renderContent. cbn [loading]. by case_decide.
Qed.

(** After mark read, after delete, after viewing an unread message and after
    either reply, the slot holds the serialized list of the panel. *)
Theorem mutations_leave_storage_in_sync (w : World) :
  (∀ id, in_sync (exec (markAsRead id) w)) ∧
  (∀ id, in_sync (exec (handleDeleteMessage id) w)) ∧
  (∀ message, message.(isRead) = false → in_sync (exec (handleViewMessage message) w)) ∧
  (is_Some w.(selectedMessage) → in_sync (exec handleSendReplyViaEmailClient w)) ∧
  (∀ closure, in_sync (exec (handleSendReplyViaSystem_resume closure) w)).
Proof.
  unfold in_sync. split_and!.
  - intros id. rewrite markAsRead_world. apply lookup_insert_eq.
  - intros id. rewrite handleDeleteMessage_world. apply lookup_insert_eq.
  - intros message Hunread. rewrite handleViewMessage_world, Hunread.
    apply lookup_insert_eq.
  - intros [sel Hsel].
    destruct (handleSendReplyViaEmailClient_world sel w Hsel)
      as (now & ds & updated & -> & _). apply lookup_insert_eq.
  - intros [sel msgs].
    destruct (handleSendReplyViaSystem_resume_world sel msgs w)
      as (now & ds & updated & -> & _). apply lookup_insert_eq.
Qed.

(** Refresh over a slot that is in step with the panel, on a host whose
    parser reads back what its serializer wrote for this list: the list is
    as before and nothing is reported. *)
Theorem loadMessages_reloads_synced_list (w : World) :
  in_sync w →
  JSON_stringify w.(messages) ≠ "" →
  JSON_parse (JSON_stringify w.(messages)) = Some w.(messages) →
  let w' := exec loadMessages w in
  w'.(messages) = w.(messages) ∧
  w'.(toasts) = w.(toasts) ∧
  w'.(console) = w.(console) ∧
  in_sync w'.
Proof.
  unfold in_sync. intros Hsync Hne Hparse.
  rewrite loadMessages_world, Hsync. cbn [or_default].
  rewrite decide_False by done. rewrite Hparse. by cbn.
Qed.

(** *** View, delete and mark read *)

(** Viewing a message selects it and opens the detail dialog without any
    notification; every entry bearing its identifier is read afterwards when
    the message was passed as unread; the unread count does not grow. When
    the message viewed is an entry of the list, that entry is read
    afterwards, and viewing it again as the table then passes it (the entry
    of the new list) leaves list, storage and unread count as they are: it
    only selects that entry and keeps the dialog open. *)
Theorem handleViewMessage_opens_and_reads (message : ContactMessage) (w : World) :
  let w' := exec (handleViewMessage message) w in
  w'.(selectedMessage) = Some message ∧
  w'.(dialogOpen) = true ∧
  w'.(toasts) = w.(toasts) ∧
  length w'.(messages) = length w.(messages) ∧
  (message.(isRead) = false →
     ∀ msg, msg ∈ w'.(messages) → msg.(cm_id) = message.(cm_id) →
       msg.(isRead) = true) ∧
  (unreadCount w' ≤ unreadCount w)%nat ∧
  (∀ i, w.(messages) !! i = Some message →
     ∃ message', w'.(messages) !! i = Some message' ∧
       message'.(isRead) = true ∧
       message'.(cm_id) = message.(cm_id) ∧
       let w'' := exec (handleViewMessage message') w' in
       w''.(messages) = w'.(messages) ∧
       w''.(localStorage) = w'.(localStorage) ∧
       w''.(selectedMessage) = Some message' ∧
       w''.(dialogOpen) = true ∧
       w''.(toasts) = w'.(toasts) ∧
       unreadCount w'' = unreadCount w').
Proof.
  intros w'. subst w'. rewrite !unreadCount_messages, !handleViewMessage_world.
  destruct (isRead message) eqn:Hread.
  - split_and!; try done.
    intros i Hi. exists message. cbv zeta.
    rewrite ?unreadCount_messages, handleViewMessage_world, Hread. by cbn.
  - cbn [messages selectedMessage dialogOpen toasts localStorage replyDialogOpen
         replyText isSendingReply loading console windows clock delays].
    split_and!; try done.
    + by rewrite length_fmap.
    + intros _ msg Hmsg Hid. apply list_elem_of_fmap in Hmsg as (m & -> & _).
      case_decide; [done|]. by destruct Hid.
    + rewrite count_unread_filter. apply count_unread_filter_le.
    + intros i Hi. exists (spread_isRead message true).
      rewrite list_lookup_fmap, Hi. cbn [fmap option_fmap option_map].
      rewrite decide_True by done. cbv zeta.
      rewrite ?unreadCount_messages, handleViewMessage_world. by cbn.
Qed.

(** After a delete the identifier no longer occurs in the list, the list has
    lost exactly the entries that bore it, and the unread count has not
    grown; a second delete of the same identifier leaves list and storage as
    they are and notifies success once more. *)
Theorem handleDeleteMessage_then_absent (id : string) (w : World) :
  let w' := exec (handleDeleteMessage id) w in
  let w'' := exec (handleDeleteMessage id) w' in
  (id ∉ cm_id <$> w'.(messages)) ∧
  ((length w'.(messages) + length (filter (λ msg, msg.(cm_id) = id) w.(messages)))%nat
   = length w.(messages)) ∧
  (unreadCount w' ≤ unreadCount w)%nat ∧
  w''.(messages) = w'.(messages) ∧
  w''.(localStorage) = w'.(localStorage) ∧
  w''.(toasts) =
    w.(toasts) ++ [toast_success "Message deleted successfully";
                   toast_success "Message deleted successfully"].
Proof.
  intros w' w''. subst w' w''. rewrite !unreadCount_messages, !handleDeleteMessage_world.
  cbn [messages localStorage toasts].
  assert (Hgone : id ∉ cm_id <$> filter (λ msg, cm_id msg ≠ id) (messages w)).
  { intros (msg & -> & Hmsg)%list_elem_of_fmap.
    apply list_elem_of_filter in Hmsg as [Hne _]. by apply Hne. }
  split_and!.
  - exact Hgone.
  - clear Hgone. induction (messages w) as [|msg l IH]; [done|].
    rewrite !filter_cons. destruct (decide (cm_id msg = id)).
    + rewrite decide_False by naive_solver. cbn [length]. lia.
    + rewrite decide_True by done. cbn [length]. lia.
  - apply count_unread_filter_le.
  - by apply filter_other_ids_absent.
  - rewrite filter_other_ids_absent by done. by rewrite insert_insert_eq.
  - by rewrite <- app_assoc.
Qed.

(** Mark read and delete do not depend on their order: marking one
    identifier read and deleting another (or the same) leave the same world
    either way round, and so do two mark reads. *)
Theorem markAsRead_handleDeleteMessage_commute (a b : string) (w : World) :
  exec (markAsRead a) (exec (handleDeleteMessage b) w)
    = exec (handleDeleteMessage b) (exec (markAsRead a) w) ∧
  exec (markAsRead a) (exec (markAsRead b) w)
    = exec (markAsRead b) (exec (markAsRead a) w).
Proof.
  rewrite !markAsRead_world, !handleDeleteMessage_world.
  cbn [messages selectedMessage dialogOpen toasts localStorage replyDialogOpen
       replyText isSendingReply loading console windows clock delays].
  split.
  - by rewrite mark_read_filter_comm, !insert_insert_eq.
  - by rewrite mark_read_comm, !insert_insert_eq.
Qed.

(** *** Replies *)

(** Mark read, viewing and both replies never clear a replied flag: an entry
    that is marked replied keeps its place, its identifier and the flag (the
    system reply with respect to the list of its click). *)
Theorem replied_flag_is_kept (w : World) :
  (∀ id, keeps_replied w.(messages) (exec (markAsRead id) w).(messages)) ∧
  (∀ message, keeps_replied w.(messages) (exec (handleViewMessage message) w).(messages)) ∧
  keeps_replied w.(messages) (exec handleSendReplyViaEmailClient w).(messages) ∧
  (∀ sel msgs,
     keeps_replied msgs (exec (handleSendReplyViaSystem_resume (sel, msgs)) w).(messages)).
Proof.
  assert (Hrefl : ∀ l, keeps_replied l l) by (intros l i msg ? ?; by exists msg).
  split_and!.
  - intros id. rewrite markAsRead_world. apply keeps_replied_mark_read.
  - intros message. rewrite handleViewMessage_world.
    destruct (isRead message); [apply Hrefl | apply keeps_replied_mark_read].
  - destruct (selectedMessage w) as [sel|] eqn:Hsel.
    + destruct (handleSendReplyViaEmailClient_world sel w Hsel)
        as (now & ds & updated & -> & _ & Hall).
      apply keeps_replied_Forall2. eapply Forall2_impl; [exact Hall|].
      by intros msg msg' (Hid & _ & Hkeep & _)%replied_entry_keeps.
    + unfold handleSendReplyViaEmailClient, exec, mbind, M_bind, gets. cbn.
      rewrite Hsel. apply Hrefl.
  - intros sel msgs.
    destruct (handleSendReplyViaSystem_resume_world sel msgs w)
      as (now & ds & updated & -> & _ & Hall).
    apply keeps_replied_Forall2. eapply Forall2_impl; [exact Hall|].
    by intros msg msg' (Hid & _ & Hkeep & _)%replied_entry_keeps.
Qed.

(** With no message selected neither reply handler does anything: the world
    is as it was, no window is opened and nothing is notified; the reply
    click still swaps the dialogs but leaves the draft. *)
Theorem reply_without_selection (w : World) :
  w.(selectedMessage) = None →
  exec handleSendReplyViaEmailClient w = w ∧
  handleSendReplyViaSystem_click w = (None, w) ∧
  (exec handleReplyClick w).(replyText) = w.(replyText) ∧
  (exec handleReplyClick w).(dialogOpen) = false ∧
  (exec handleReplyClick w).(replyDialogOpen) = true.
Proof.
  intros Hsel. rewrite handleSendReplyViaSystem_click_run, handleReplyClick_world, Hsel.
  split_and!; try done.
  unfold handleSendReplyViaEmailClient, exec, mbind, M_bind, gets. cbn.
  by rewrite Hsel.
Qed.

Lemma trimEnd_starts_nonblank (c : ascii) (s : string) :
  is_white_space c = false → trimEnd (String c s) ≠ "".
Proof. intros Hc. cbn [trimEnd]. rewrite Hc. by destruct (trimEnd s). Qed.

Lemma trim_replyTemplate (name : string) : trim (replyTemplate name) ≠ "".
Proof.
  unfold replyTemplate, trim. rewrite app_String. cbn [trimStart].
  replace (is_white_space "D") with false by reflexivity.
  by apply trimEnd_starts_nonblank.
Qed.

(** The reply click with a message selected closes the detail dialog, opens
    the editor and fills the draft with the template greeting the sender by
    name; that draft is not blank, so (unless a send is in flight) the send
    button is enabled and a click on it starts the send for the selected
    message. The list and storage are not touched. *)
Theorem handleReplyClick_fills_template (sel : ContactMessage) (w : World) :
  w.(selectedMessage) = Some sel →
  let w' := exec handleReplyClick w in
  w'.(dialogOpen) = false ∧
  w'.(replyDialogOpen) = true ∧
  w'.(replyText) = replyTemplate sel.(cm_name) ∧
  substring 5 (String.length sel.(cm_name)) w'.(replyText) = sel.(cm_name) ∧
  trim w'.(replyText) ≠ "" ∧
  w'.(messages) = w.(messages) ∧
  w'.(localStorage) = w.(localStorage) ∧
  (w.(isSendingReply) = false →
     sendReplyButton_disabled w' = false ∧
     (handleSendReplyViaSystem_click w').1 = Some (sel, w.(messages))).
Proof.
  intros Hsel w'. subst w'. rewrite handleSendReplyViaSystem_click_run.
  rewrite !handleReplyClick_world, Hsel.
  cbn [messages selectedMessage dialogOpen replyDialogOpen replyText
       isSendingReply localStorage].
  pose proof (trim_replyTemplate (cm_name sel)) as Htrim.
  split_and!; try done.
  - exact (substring_middle "Dear " (cm_name sel) _).
  - intros Hidle. unfold sendReplyButton_disabled.
    cbn [isSendingReply replyText]. rewrite Hidle, bool_decide_eq_false_2 by done.
    split; [done|]. by rewrite decide_False.
Qed.

(** The send button and the guard of the system reply agree. With a message
    selected: when the button is enabled the click sets the in-flight flag,
    keeps the list of the click for when it resumes, and both send buttons
    are disabled from then on; when the draft is blank the button is disabled
    and a click would change nothing, while the mail-client button stays
    enabled (no send being in flight) and its handler does open the link. *)
Theorem sendReplyButton_agrees_with_guard (sel : ContactMessage) (w : World) :
  w.(selectedMessage) = Some sel →
  (sendReplyButton_disabled w = false →
     (handleSendReplyViaSystem_click w).1 = Some (sel, w.(messages)) ∧
     (exec handleSendReplyViaSystem_click w).(isSendingReply) = true ∧
     sendReplyButton_disabled (exec handleSendReplyViaSystem_click w) = true ∧
     emailClientButton_disabled (exec handleSendReplyViaSystem_click w) = true ∧
     (exec handleSendReplyViaSystem_click w).(messages) = w.(messages)) ∧
  (trim w.(replyText) = "" →
     sendReplyButton_disabled w = true ∧
     handleSendReplyViaSystem_click w = (None, w) ∧
     emailClientButton_disabled w = w.(isSendingReply) ∧
     length (exec handleSendReplyViaEmailClient w).(windows)
       = S (length w.(windows))).
Proof.
  intros Hsel. unfold exec. rewrite handleSendReplyViaSystem_click_run, Hsel.
  unfold sendReplyButton_disabled, emailClientButton_disabled. split.
  - intros [_ Hdraft%bool_decide_eq_false]%orb_false_elim.
    rewrite decide_False by done. by cbn.
  - intros Hblank. rewrite decide_True, bool_decide_eq_true_2, orb_true_r by done.
    split_and!; try done.
    destruct (handleSendReplyViaEmailClient_world sel w Hsel)
      as (now & ds & updated & Hw & _). unfold exec in Hw. rewrite Hw.
    cbn [windows]. rewrite List.length_app. cbn. lia.
Qed.

(** The system reply resumes on the list of its click: whatever the panel
    holds when the timer fires (entries deleted or marked read in between
    included), the list it installs and persists has the identifiers and
    read flags of the list of the click, with every entry bearing the
    selected identifier marked replied; it then clears the in-flight flag,
    closes the editor, clears the draft and notifies success. *)
Theorem handleSendReplyViaSystem_resumes_on_click_list
    (sel : ContactMessage) (msgs : list ContactMessage) (w0 w1 : World) :
  (handleSendReplyViaSystem_click w0).1 = Some (sel, msgs) →
  let w' := exec (handleSendReplyViaSystem_resume (sel, msgs)) w1 in
  w0.(selectedMessage) = Some sel ∧
  msgs = w0.(messages) ∧
  cm_id <$> w'.(messages) = cm_id <$> w0.(messages) ∧
  isRead <$> w'.(messages) = isRead <$> w0.(messages) ∧
  (∀ msg, msg ∈ w'.(messages) → msg.(cm_id) = sel.(cm_id) →
     msg.(replied) = Some true) ∧
  in_sync w' ∧
  w'.(isSendingReply) = false ∧
  w'.(replyDialogOpen) = false ∧
  w'.(replyText) = "" ∧
  w'.(toasts) = w1.(toasts) ++ [toast_success "Reply sent successfully"].
Proof.
  rewrite handleSendReplyViaSystem_click_run. intros Hclick w'. subst w'.
  assert (selectedMessage w0 = Some sel ∧ msgs = messages w0) as [Hsel ->].
  { destruct (selectedMessage w0); [|done]. case_decide; naive_solver. }
  destruct (handleSendReplyViaSystem_resume_world sel (messages w0) w1)
    as (now & ds & updated & -> & _ & Hall).
  unfold in_sync. cbn [messages isSendingReply replyDialogOpen replyText toasts localStorage].
  split_and!; try done.
  - apply Forall2_fmap_eq. eapply Forall2_impl; [exact Hall|].
    by intros msg msg' (Hid & _)%replied_entry_keeps.
  - apply Forall2_fmap_eq. eapply Forall2_impl; [exact Hall|].
    by intros msg msg' (_ & Hread & _)%replied_entry_keeps.
  - intros msg' Hin Hid. apply list_elem_of_lookup in Hin as [i Hi].
    destruct (Forall2_lookup_r _ _ _ _ _ Hall Hi) as (msg & _ & Hm).
    apply replied_entry_keeps in Hm as (Hid' & _ & _ & Hreplied).
    apply Hreplied. congruence.
  - apply lookup_insert_eq.
Qed.


(** The table agrees with the badge of the header: while loading the spinner
    is shown; with an empty list the notice is shown and no badge; otherwise
    the table has one row per message, in the order and under the keys of
    the list, and the rows labelled New, which are the highlighted ones, are
    as many as the unread count. *)
Theorem renderContent_agrees_with_badge (formatDate : string → string) (w : World) :
  (w.(loading) = true → renderContent formatDate w = content_spinner) ∧
  (w.(loading) = false → w.(messages) = [] →
     renderContent formatDate w = content_empty ∧ unreadBadge w = None) ∧
  (w.(loading) = false → w.(messages) ≠ [] →
     ∃ rows, renderContent formatDate w = content_table rows ∧
       row_key <$> rows = cm_id <$> w.(messages) ∧
       length (filter (λ row, row.(row_status) = "New") rows) = unreadCount w ∧
       filter (λ row, row.(row_className) = "bg-amber-50") rows
         = filter (λ row, row.(row_status) = "New") rows ∧
       (∀ i msg, w.(messages) !! i = Some msg →
          ∃ row, rows !! i = Some row ∧
            (row.(row_replied) = true ↔ msg.(replied) = Some true) ∧
            (row.(row_status) = "Read" ↔ msg.(isRead) = true))).
Proof.
  unfold renderContent. split_and!.
  - by intros ->.
  - intros -> Hempty. rewrite Hempty. split; [done|].
    unfold unreadBadge, unreadCount. by rewrite Hempty.
  - intros -> Hne. rewrite decide_False by (by intros ?%nil_length_inv).
    eexists. split; [done|]. clear Hne. rewrite unreadCount_messages. split_and!.
    + rewrite <- list_fmap_compose. done.
    + induction (messages w) as [|msg l IH]; [done|].
      rewrite fmap_cons, filter_cons. cbn [count_unread renderRow row_status].
      destruct (isRead msg);
        [rewrite decide_False by done; apply IH | rewrite decide_True by done].
      cbn [length]. f_equal. apply IH.
    + induction (messages w) as [|msg l IH]; [done|].
      rewrite fmap_cons, !filter_cons. cbn [renderRow row_status row_className].
      destruct (isRead msg).
      * rewrite !decide_False by done. apply IH.
      * rewrite !decide_True by done. f_equal. apply IH.
    + intros i msg Hi. rewrite list_lookup_fmap, Hi. eexists. split; [done|].
      cbn [renderRow row_replied row_status]. rewrite bool_decide_eq_true.
      split; [done|]. by destruct (isRead msg).
Qed.

End InboxCoverage.

(** ** Further properties of the bill display *)

Section BillCoverage.
Import BillDisplay.

Ltac run_eff :=
  cbv [trace shareBill downloadPDF shareButton_onClick shareButton_disabled
       downloadButton_onClick printButton_onClick printBill
       call_html2canvas call_toBlob mbind Eff_bind mret Eff_ret emit throw
       try_catch try_finally billRef_current html2canvas toBlob navigator_share
       negb orb fst snd app].

(** The download raises the busy flag before anything else and lowers it
    last, on the failure path as on the success path, and does not set it in
    between; it reports exactly one notification, success or failure, and
    lets no exception out. Without a rendered bill it does nothing at all.
    While the flag is up, a click on Print, Download or Share starts
    nothing. *)
Theorem downloadPDF_busy_flag (p : Platform) (order : OrderType) :
  (downloadPDF p order).2 = Some () ∧
  (p.(billRef_current) = false → downloadPDF p order = ([], Some ())) ∧
  (p.(billRef_current) = true →
     ∃ mid, trace (downloadPDF p order) =
              ev_setIsGeneratingBill true :: mid ++ [ev_setIsGeneratingBill false] ∧
       (∀ b, ev_setIsGeneratingBill b ∉ mid) ∧
       toasts_of (trace (downloadPDF p order)) =
         [match p.(html2canvas) with
          | Some _ => toast_success "Bill downloaded as PDF"
          | None => toast_error "Failed to download PDF"
          end]) ∧
  (∀ innerHTML popup,
     printButton_onClick p innerHTML popup true = [] ∧
     downloadButton_onClick p order true = ([], Some ()) ∧
     shareButton_onClick p order true = ([], Some ())).
Proof.
  destruct p as [ref canv blob share]. split_and!.
  - run_eff. by destruct ref, canv.
  - cbn. intros ->. by run_eff.
  - cbn. intros ->. run_eff. destruct canv as [canvas|].
    + eexists [_; _; _; _; _]. split_and!; [done| |done].
      intros b. rewrite !not_elem_of_cons. split_and!; done || apply not_elem_of_nil.
    + eexists [_; _; _]. split_and!; [done| |done].
      intros b. rewrite !not_elem_of_cons. split_and!; done || apply not_elem_of_nil.
  - intros innerHTML popup. by run_eff.
Qed.


(** The share action lets no exception out, never touches the busy flag and
    never notifies success; it reports at most one notification, and does
    nothing at all without a rendered bill. *)
Theorem shareBill_never_throws_nor_flags (p : Platform) (order : OrderType) :
  (shareBill p order).2 = Some () ∧
  (∀ b, ev_setIsGeneratingBill b ∉ trace (shareBill p order)) ∧
  (∀ text, ev_toast (toast_success text) ∉ trace (shareBill p order)) ∧
  (length (toasts_of (trace (shareBill p order))) ≤ 1)%nat ∧
  (p.(billRef_current) = false → shareBill p order = ([], Some ())).
Proof.
  destruct p as [[] [canvas|] [] [[]|]]; run_eff;
    (split_and!; [done | | | cbn; lia | done]);
    intros; rewrite ?not_elem_of_cons; split_and?; done || apply not_elem_of_nil.
Qed.

(** On a platform with the share capability and with the bill rendered, the
    Share button is enabled when no download is in flight; once the capture
    and its encoding have succeeded the platform share is called once, with
    the title and the file named from the order identifier; a completed
    share reports nothing, a share that fails or is dismissed reports the
    failure. When the capture fails the share is not called. *)
Theorem shareBill_with_share_capability
    (p : Platform) (order : OrderType) (resolves : bool) :
  p.(navigator_share) = Some resolves →
  p.(billRef_current) = true →
  shareButton_disabled p false = false ∧
  (is_Some p.(html2canvas) → p.(toBlob) = true →
     trace (shareBill p order) =
       [ev_html2canvas; ev_toBlob;
        ev_navigator_share (shareTitle order) (shareFileName order)] ++
       (if resolves then []
        else [ev_console_error "Error sharing bill:";
              ev_toast (toast_error "Failed to share bill")])) ∧
  (p.(html2canvas) = None ∨ p.(toBlob) = false →
     (∀ title fileName, ev_navigator_share title fileName ∉ trace (shareBill p order)) ∧
     toasts_of (trace (shareBill p order)) = [toast_error "Failed to share bill"]).
Proof.
  destruct p as [ref canv blob share]. cbn. intros -> ->. split_and!.
  - done.
  - intros [canvas ->] ->. run_eff. by destruct resolves.
  - intros Hfail. run_eff.
    destruct canv as [canvas|], blob; try (by destruct Hfail);
      (split; [|done]); intros;
      rewrite !not_elem_of_cons; split_and!; done || apply not_elem_of_nil.
Qed.

(** Printing, with the bill rendered: when the window opens it receives one
    document, the markup of the bill between the fixed opening and closing
    tags, and is then closed and printed, with no notification; when the
    window is blocked nothing is written and the one effect after the
    attempt is the error notification. Without a rendered bill not even the
    window is asked for. *)
Theorem printBill_document (p : Platform) (innerHTML : string) :
  (p.(billRef_current) = false → ∀ popup, printBill p innerHTML popup = []) ∧
  (p.(billRef_current) = true →
     written (printBill p innerHTML true) =
       "<html><head><title>Cafe Bill</title><style>body { font-family: Arial, sans-serif; }</style></head><body>"
       +:+ innerHTML +:+ "</body></html>" ∧
     substring 104 (String.length innerHTML) (written (printBill p innerHTML true))
       = innerHTML ∧
     (∃ writes, printBill p innerHTML true =
        pe_window_open "" "_blank" :: writes ++ [pe_document_close; pe_print] ∧
        Forall (λ e, ∃ html, e = pe_document_write html) writes) ∧
     printBill p innerHTML false =
       [pe_window_open "" "_blank";
        pe_toast (toast_error "Unable to open print window")]).
Proof.
  destruct p as [ref canv blob share]. cbn. split.
  - by intros ->.
  - intros ->. run_eff. split_and!.
    + reflexivity.
    + exact (substring_middle
        "<html><head><title>Cafe Bill</title><style>body { font-family: Arial, sans-serif; }</style></head><body>"
        innerHTML "</body></html>").
    + eexists [_; _; _; _; _]. split; [done|]. repeat constructor; by eexists.
    + done.
Qed.

(** The customer and room lines are never empty: a missing or empty customer
    name shows as the walk-in customer, a missing or empty room as the
    counter pickup, and any other value shows as it is. *)
Theorem header_lines_never_empty (order : OrderType) :
  customerLine order ≠ "" ∧
  roomLine order ≠ "" ∧
  (∀ s, order.(customer_name) = Some s → s ≠ "" → customerLine order = s) ∧
  (order.(customer_name) = None ∨ order.(customer_name) = Some "" →
     customerLine order = "Walk-in Customer") ∧
  (∀ s, order.(room_number) = Some s → s ≠ "" → roomLine order = s) ∧
  (order.(room_number) = None ∨ order.(room_number) = Some "" →
     roomLine order = "Counter Pickup").
Proof.
  unfold customerLine, roomLine, ContactMessages.or_default.
  destruct (customer_name order) as [c|], (room_number order) as [r|];
    repeat case_decide; subst; split_and!; try done;
    try (intros s [= ->] ?; done); try (intros [|[= ?]]; done);
    try (intros s [= <-] ?; done).
Qed.

Lemma upper_char_idemp (c : ascii) : upper_char (upper_char c) = upper_char c.
Proof. by destruct c as [[] [] [] [] [] [] [] []]. Qed.

Lemma substring_all (s : string) : substring 0 (String.length s) s = s.
Proof. induction s as [|c s IH]; [done|]. cbn. by rewrite IH. Qed.

Lemma slice_rest (c : ascii) (s : string) :
  slice (String c s) 1 (Z.of_nat (String.length (String c s))) = s.
Proof.
  unfold slice, relative_index. cbn [String.length].
  replace (1 <? 0)%Z with false by done.
  rewrite (proj2 (Z.ltb_ge _ 0)) by lia.
  rewrite Z.min_l, Z.min_id, Z.max_l by lia.
  replace (Z.to_nat (Z.of_nat (S (String.length s)) - 1)) with (String.length s) by lia.
  cbn [Z.to_nat Pos.to_nat Pos.iter_op substring]. apply substring_all.
Qed.

(** For a status that is ASCII text, the status line is the status with its
    first character capitalised (a lower-case letter replaced by the letter
    32 codes below, any other character kept) and the rest as it is: it has
    the length of the status, is empty for the empty status, and
    capitalising it again changes nothing. *)
Theorem statusLabel_capitalises (order : OrderType) :
  is_ascii order.(status) = true →
  (order.(status) = "" → statusLabel order = "") ∧
  (∀ c rest, order.(status) = String c rest →
     ∃ c', statusLabel order = String c' rest ∧
       ((97 ≤ nat_of_ascii c ≤ 122)%nat →
          nat_of_ascii c' = (nat_of_ascii c - 32)%nat) ∧
       (¬ (97 ≤ nat_of_ascii c ≤ 122)%nat → c' = c)) ∧
  String.length (statusLabel order) = String.length order.(status) ∧
  (∀ order', order'.(status) = statusLabel order →
     statusLabel order' = statusLabel order).
Proof.
  intros _.
  assert (Hlabel : ∀ o, statusLabel o =
            match o.(status) with
            | String c rest => String (upper_char c) rest
            | EmptyString => EmptyString
            end).
  { intros o. unfold statusLabel. destruct (status o) as [|c rest]; [done|].
    rewrite slice_rest. done. }
  split_and!.
  - intros Hempty. by rewrite Hlabel, Hempty.
  - intros c rest Hstatus. rewrite Hlabel, Hstatus.
    exists (upper_char c). split; [done|]. apply upper_char_code.
  - rewrite Hlabel. by destruct (status order).
  - intros order' Hstatus. rewrite (Hlabel order'), Hstatus, Hlabel.
    destruct (status order) as [|c rest]; [done|]. by rewrite upper_char_idemp.
Qed.

End BillCoverage.

(** *** The further properties on the sample data *)

Section CoverageExamples.
Import ContactMessages BillDisplay.
#[local] Existing Instance Demo.host.

Lemma loadMessages_reloads_synced_list_witness :
  messages (@exec unit (@loadMessages Demo.json_host)
              (@exec unit (@markAsRead Demo.json_host "1") Demo.json_inbox))
    = [spread_isRead Demo.ann true; Demo.bob] ∧
  toasts (@exec unit (@loadMessages Demo.json_host)
            (@exec unit (@markAsRead Demo.json_host "1") Demo.json_inbox)) = [] ∧
  console (@exec unit (@loadMessages Demo.json_host)
             (@exec unit (@markAsRead Demo.json_host "1") Demo.json_inbox)) = [].
Proof.
  assert (Hsync : @in_sync Demo.json_host
            (@exec unit (@markAsRead Demo.json_host "1") Demo.json_inbox))
    by (vm_compute; reflexivity).
  assert (Hne : @JSON_stringify Demo.json_host
            (messages (@exec unit (@markAsRead Demo.json_host "1") Demo.json_inbox)) ≠ "")
    by (intros Heq; vm_compute in Heq; discriminate Heq).
  assert (Hparse : @JSON_parse Demo.json_host
            (@JSON_stringify Demo.json_host
               (messages (@exec unit (@markAsRead Demo.json_host "1") Demo.json_inbox)))
          = Some (messages (@exec unit (@markAsRead Demo.json_host "1") Demo.json_inbox)))
    by (vm_compute; reflexivity).
  destruct (@loadMessages_reloads_synced_list Demo.json_host _ Hsync Hne Hparse)
    as (Hm & Ht & Hc & _).
  rewrite Hm, Ht, Hc. split_and!; vm_compute; reflexivity.
Defined.

Lemma reply_without_selection_witness :
  exec handleSendReplyViaEmailClient Demo.inbox = Demo.inbox ∧
  handleSendReplyViaSystem_click Demo.inbox = (None, Demo.inbox).
Proof.
  destruct (reply_without_selection Demo.inbox eq_refl) as (Hmail & Hclick & _).
  split; [exact Hmail | exact Hclick].
Defined.

Lemma handleReplyClick_fills_template_witness :
  replyText (exec handleReplyClick Demo.viewing) = replyTemplate "Ann" ∧
  substring 5 3 (replyText (exec handleReplyClick Demo.viewing)) = "Ann" ∧
  sendReplyButton_disabled (exec handleReplyClick Demo.viewing) = false.
Proof.
  destruct (handleReplyClick_fills_template Demo.ann Demo.viewing eq_refl)
    as (_ & _ & Htext & Hname & _ & _ & _ & Hsend).
  split_and!; [exact Htext | exact Hname | exact (proj1 (Hsend eq_refl))].
Defined.

Lemma sendReplyButton_agrees_with_guard_witness :
  isSendingReply (exec handleSendReplyViaSystem_click Demo.replying) = true ∧
  emailClientButton_disabled (exec handleSendReplyViaSystem_click Demo.replying) = true ∧
  sendReplyButton_disabled (exec (setReplyText "  ") Demo.replying) = true ∧
  emailClientButton_disabled (exec (setReplyText "  ") Demo.replying) = false.
Proof.
  destruct (sendReplyButton_agrees_with_guard Demo.ann Demo.replying eq_refl)
    as [Henabled _].
  destruct (Henabled eq_refl) as (_ & Hflag & _ & Hmail & _).
  destruct (sendReplyButton_agrees_with_guard Demo.ann
              (exec (setReplyText "  ") Demo.replying) eq_refl) as [_ Hblank].
  destruct (Hblank eq_refl) as (Hsend & _ & Hmail' & _).
  split_and!; [exact Hflag | exact Hmail | exact Hsend | exact Hmail'].
Defined.

Lemma handleSendReplyViaSystem_resumes_on_click_list_witness :
  cm_id <$> messages (exec (handleDeleteMessage "2")
                        (exec handleSendReplyViaSystem_click Demo.replying)) = ["1"] ∧
  cm_id <$> messages
    (exec (handleSendReplyViaSystem_resume (Demo.ann, [Demo.ann; Demo.bob]))
       (exec (handleDeleteMessage "2")
          (exec handleSendReplyViaSystem_click Demo.replying))) = ["1"; "2"] ∧
  isSendingReply
    (exec (handleSendReplyViaSystem_resume (Demo.ann, [Demo.ann; Demo.bob]))
       (exec (handleDeleteMessage "2")
          (exec handleSendReplyViaSystem_click Demo.replying))) = false.
Proof.
  destruct (handleSendReplyViaSystem_resumes_on_click_list
              Demo.ann [Demo.ann; Demo.bob] Demo.replying
              (exec (handleDeleteMessage "2")
                 (exec handleSendReplyViaSystem_click Demo.replying)) eq_refl)
    as (_ & _ & Hids & _ & _ & _ & Hflag & _).
  split_and!; [reflexivity | exact Hids | exact Hflag].
Defined.



Lemma shareBill_with_share_capability_witness :
  shareButton_disabled Demo.sharing false = false ∧
  trace (shareBill Demo.sharing Demo.order) =
    [ev_html2canvas; ev_toBlob;
     ev_navigator_share "Cafe Bill - Order #a1b2c3d4-e5f6-7890"
       "bill-a1b2c3d4-e5f6-7890.png"].
Proof.
  destruct (shareBill_with_share_capability Demo.sharing Demo.order true
              eq_refl eq_refl) as (Hbutton & Hshare & _).
  split; [exact Hbutton|].
  rewrite Hshare; [reflexivity | by eexists | reflexivity].
Defined.

Lemma statusLabel_capitalises_witness :
  (∃ c', statusLabel Demo.order = String c' "ompleted" ∧ nat_of_ascii c' = 67%nat) ∧
  String.length (statusLabel Demo.order) = 9%nat.
Proof.
  destruct (statusLabel_capitalises Demo.order eq_refl) as (_ & Hfirst & Hlen & _).
  split; [|exact Hlen].
  destruct (Hfirst "c"%char "ompleted" eq_refl) as (c' & Hlabel & Hlower & _).
  exists c'. split; [exact Hlabel|].
  apply Hlower. split; apply Nat.leb_le; reflexivity.
Defined.

(** The JSON stand-in reads back the text it writes for the sample list,
    reads the empty array, and fails on a text that is no JSON value. *)
Example json_host_reads_back :
  Demo.read_messages (Demo.write_messages [Demo.ann; Demo.bob])
    = Some [Demo.ann; Demo.bob] ∧
  Demo.read_messages (Demo.write_messages []) = Some [] ∧
  Demo.read_messages "{" = None.
Proof. by vm_compute. Qed.

(** The header lines and the status line of the two sample orders. *)
Example header_lines_of_samples :
  customerLine Demo.order = "Walk-in Customer" ∧
  roomLine Demo.order = "Counter Pickup" ∧
  statusLabel Demo.order = "Completed" ∧
  customerLine Demo.order_shouting = "Ann" ∧
  roomLine Demo.order_shouting = "Counter Pickup" ∧
  statusLabel Demo.order_shouting = "Pending".
Proof. by vm_compute. Qed.

End CoverageExamples.
